(** * itkTBBMultiThreader: region splitting and parallel dispatch

    A shallow embedding of [Modules/Core/Common/src/itkTBBMultiThreader.cxx]:
    the [TBBImageRegionSplitter] range (its splitting constructor, [empty]
    and [is_divisible]) and the three entry points of [TBBMultiThreader]
    ([SingleMethodExecute], [ParallelizeArray], [ParallelizeImageRegion]).

    Integers are [Z] with the wrap-around of the C++ types written out.
    Calls of user functions and of the filter's [UpdateProgress] are
    recorded in a trace; the filter's abort flag is an oracle over the
    successive polls. *)

From Stdlib Require Import ZArith Lia Bool String Sorted.
From stdpp Require Import base tactics option list.

Local Open Scope Z_scope.

(** ** Integer types *)

Module IntTypes.

(** [SizeValueType] is an unsigned 64-bit integer ([size_t], also the type
    of [tbb::proportional_split]'s components and of [myP]). *)
Definition SizeValueType_modulus : Z := 2 ^ 64.

Definition to_SizeValueType (z : Z) : Z := z mod SizeValueType_modulus.

(** [IndexValueType] is the signed type of the same width. *)
Definition IndexValueType_min : Z := - 2 ^ 63.
Definition IndexValueType_max : Z := 2 ^ 63 - 1.

Definition to_IndexValueType (z : Z) : Z :=
  (z + 2 ^ 63) mod SizeValueType_modulus - 2 ^ 63.

(** [unsigned int] and [int] (32 bits). *)
Definition to_unsigned (z : Z) : Z := z mod 2 ^ 32.
Definition to_int (z : Z) : Z := (z + 2 ^ 31) mod 2 ^ 32 - 2 ^ 31.
Definition INT_MAX : Z := 2 ^ 31 - 1.

Definition is_SizeValueType (z : Z) : Prop := 0 <= z < SizeValueType_modulus.
Definition is_IndexValueType (z : Z) : Prop :=
  IndexValueType_min <= z <= IndexValueType_max.

End IntTypes.
Import IntTypes.

(** ** Exceptions and results *)

Inductive Exception : Type :=
  | NoSingleMethodSet
      (* itkExceptionMacro(<< "No single method set!") *)
  | ProcessAborted (description : string)
      (* ProcessAborted e; e.SetDescription(msg); throw e *)
  | RegionCouldNotBeSplit
      (* itkGenericExceptionMacro("An ImageIORegion could not be split ...") *)
  | bad_function_call
      (* calling a std::function that holds no target *)
  | IntegerDivisionByZero.
      (* not a C++ exception: [x / 0] on [size_t] is undefined, the model
         stops there *)

Inductive Outcome (A : Type) : Type :=
  | Returned (a : A)
  | Thrown (e : Exception).
Arguments Returned {A} a.
Arguments Thrown {A} e.

(** ** ImageIORegion *)

(** Modelled from the spec: [itk::ImageIORegion] is declared outside this
    file; the spec's Region has "dimension: uint, index: sequence<int>
    (length = dimension), size: sequence<uint> (length = dimension)". *)
Record ImageIORegion : Type := {
  m_ImageDimension : nat;
  m_Index : list Z;
  m_Size : list Z
}.

Module Region.

Definition GetImageDimension (r : ImageIORegion) : nat := m_ImageDimension r.

(** Modelled from the spec: the accessors are declared with
    [ImageIORegion]; they read and write one element of the index and size
    sequences. Every use below has [i < GetImageDimension()]; out of range
    the model reads 0 and writes nothing. *)
Definition GetSize (r : ImageIORegion) (i : nat) : Z := default 0 (m_Size r !! i).
Definition GetIndex (r : ImageIORegion) (i : nat) : Z := default 0 (m_Index r !! i).

Definition SetSize (r : ImageIORegion) (i : nat) (size : Z) : ImageIORegion :=
  {| m_ImageDimension := m_ImageDimension r;
     m_Index := m_Index r;
     m_Size := <[i := size]> (m_Size r) |}.

Definition SetIndex (r : ImageIORegion) (i : nat) (idx : Z) : ImageIORegion :=
  {| m_ImageDimension := m_ImageDimension r;
     m_Index := <[i := idx]> (m_Index r);
     m_Size := m_Size r |}.

(** [ImageIORegion(dimension)]: index and size vectors of that length,
    filled with zeros. *)
Definition Build (dimension : nat) : ImageIORegion :=
  {| m_ImageDimension := dimension;
     m_Index := replicate dimension 0;
     m_Size := replicate dimension 0 |}.

(** Modelled from the spec: [GetNumberOfPixels] is declared with
    [ImageIORegion], outside this file; the spec gives
    NumberOfElements = product(size[d]). *)
Definition GetNumberOfPixels (r : ImageIORegion) : Z :=
  foldr Z.mul 1 (m_Size r).

(** The class invariant: both vectors have [m_ImageDimension] elements,
    of their element types. *)
Definition wf (r : ImageIORegion) : Prop :=
  length (m_Index r) = m_ImageDimension r /\
  length (m_Size r) = m_ImageDimension r /\
  Forall is_IndexValueType (m_Index r) /\
  Forall is_SizeValueType (m_Size r).

(** The index set of a region: the points [x] with
    [index[d] <= x[d] < index[d] + size[d]] in every dimension. *)
Fixpoint inside (index size x : list Z) : bool :=
  match index, size, x with
  | [], [], [] => true
  | i :: index', s :: size', v :: x' =>
      (i <=? v) && (v <? i + s) && inside index' size' x'
  | _, _, _ => false
  end.

Definition IsInside (r : ImageIORegion) (x : list Z) : bool :=
  inside (m_Index r) (m_Size r) x.

(** The region's last index stays within [IndexValueType] in every
    dimension. *)
Definition in_index_range (r : ImageIORegion) : Prop :=
  forall d i s, m_Index r !! d = Some i -> m_Size r !! d = Some s ->
                i + s <= IndexValueType_max + 1.

End Region.
Import Region.

(** ** TBBImageRegionSplitter *)

(** Modelled from the spec: [tbb::proportional_split] belongs to the
    scheduler; it carries "a requested split ratio (left, right)", read by
    [p.left()] and [p.right()] as [size_t] values. *)
Record proportional_split : Type := {
  my_left : Z;
  my_right : Z
}.

(** The struct adds no data member to [itk::ImageIORegion]. *)
Definition TBBImageRegionSplitter : Type := ImageIORegion.

(** What a splitting constructor leaves behind: [constructed] is [*this],
    the new splitter; [argument] is [region], the splitter that was passed
    by reference, after the constructor has updated it. *)
Record SplitResult : Type := {
  constructed : TBBImageRegionSplitter;
  argument : TBBImageRegionSplitter
}.

Module Splitter.

(** [myP], from its initialisation to the end of the [if]/[else if] that
    follows; the divisor is not 0 here. *)
Definition split_point (size : Z) (p : proportional_split) : Z :=
  let myP :=
    to_SizeValueType (size * my_right p)
      / to_SizeValueType (my_left p + my_right p) in
  if myP =? 0 then myP + 1
  else if myP =? size then myP - 1
  else myP.

(** The body of [if (this->GetSize(d) > 1)] in the splitting constructor. *)
Definition split_along (d : nat) (this region : TBBImageRegionSplitter)
    (p : proportional_split) : Outcome SplitResult :=
  if to_SizeValueType (my_left p + my_right p) =? 0
  then Thrown IntegerDivisionByZero
  else
    let myP := split_point (GetSize this d) p in
    let this := SetSize this d myP in
    let region := SetSize region d (to_SizeValueType (GetSize region d - myP)) in
    let region :=
      SetIndex region d
        (to_IndexValueType
           (to_SizeValueType (myP + to_SizeValueType (GetIndex region d)))) in
    Returned {| constructed := this; argument := region |}.

(** [for (int d = int(GetImageDimension()) - 1; d >= 0; d--)]: [n] is
    [d + 1]. *)
Fixpoint split_scan (n : nat) (this region : TBBImageRegionSplitter)
    (p : proportional_split) : Outcome SplitResult :=
  match n with
  | O => Thrown RegionCouldNotBeSplit
  | S d =>
      if 1 <? GetSize this d then split_along d this region p
      else split_scan d this region p
  end.

(** [TBBImageRegionSplitter(TBBImageRegionSplitter& region,
    tbb::proportional_split p)]; [*this = region] comes first. *)
Definition proportional_split_constructor (region : TBBImageRegionSplitter)
    (p : proportional_split) : Outcome SplitResult :=
  let this := region in
  split_scan (GetImageDimension this) this region p.

(** [TBBImageRegionSplitter(TBBImageRegionSplitter& region, tbb::split)]
    delegates to the proportional split with ratio (1, 1). *)
Definition split_constructor (region : TBBImageRegionSplitter)
    : Outcome SplitResult :=
  proportional_split_constructor region {| my_left := 1; my_right := 1 |}.

Definition empty (this : TBBImageRegionSplitter) : bool :=
  existsb (fun d => GetSize this d =? 0) (seq 0 (GetImageDimension this)).

Definition is_divisible (this : TBBImageRegionSplitter) : bool :=
  existsb (fun d => 1 <? GetSize this d) (seq 0 (GetImageDimension this)).

(** What a scheduler does with the splitter when it subdivides as far as it
    can: it splits for as long as [is_divisible()] holds, with the ratio of
    each split chosen by [ratio]. The result lists the leaves; [None] only
    says that [fuel] levels were not enough. *)
Fixpoint split_recursively (fuel : nat)
    (ratio : TBBImageRegionSplitter -> proportional_split)
    (range : TBBImageRegionSplitter) : option (Outcome (list TBBImageRegionSplitter)) :=
  if is_divisible range then
    match fuel with
    | O => None
    | S fuel' =>
        match proportional_split_constructor range (ratio range) with
        | Thrown e => Some (Thrown e)
        | Returned halves =>
            match split_recursively fuel' ratio (constructed halves),
                  split_recursively fuel' ratio (argument halves) with
            | Some (Returned l1), Some (Returned l2) => Some (Returned (l1 ++ l2))
            | Some (Thrown e), _ => Some (Thrown e)
            | Some (Returned _), Some (Thrown e) => Some (Thrown e)
            | _, _ => None
            end
        end
    end
  else Some (Returned [range]).

End Splitter.
Import Splitter.

(** The split point as the design describes it: the floor of
    [size * right / (left + right)], brought into [[1, size - 1]]. *)
Definition clamp (lo hi x : Z) : Z := Z.max lo (Z.min hi x).

Definition described_cut (size : Z) (p : proportional_split) : Z :=
  clamp 1 (size - 1) (size * my_right p / (my_left p + my_right p)).

(** How many of the regions [l] hold the point [x]. *)
Definition holders (l : list ImageIORegion) (x : list Z) : nat :=
  length (filter (fun r => IsInside r x = true) l).

(** Every dimension of [r] has at least one element. *)
Definition positive_sizes (r : ImageIORegion) : Prop :=
  Forall (fun s => 1 <= s) (m_Size r).

(** The highest dimension of [r] with more than one element is [d]. *)
Definition chosen_dimension (r : ImageIORegion) (d : nat) : Prop :=
  (d < GetImageDimension r)%nat /\ 1 < GetSize r d /\
  forall d', (d < d' < GetImageDimension r)%nat -> GetSize r d' <= 1.

(** ** Events, the filter and the execution monad *)

(** What the threader does to its surroundings. [UpdateProgress n d] is
    [filter->UpdateProgress(float(n) / d)]; the other three are calls of
    the caller's function, with their arguments. *)
Inductive Event : Type :=
  | UpdateProgress (numerator denominator : Z)
  | SingleMethodCall (ThreadID NumberOfThreads UserData : Z)
  | ArrayCall (i : Z)
  | RegionCall (index size : list Z).

(** Modelled from the spec: the three function types are declared
    outside this file ([ThreadFunctionType], [ArrayThreadingFunctorType],
    [ThreadingFunctorType]); the spec's WorkItem is "the caller-supplied
    unit of work". A value is either nothing to call, or the user's code,
    whose calls the trace records. *)
Inductive Functor : Type :=
  | EmptyFunctor
  | UserFunction.

(** Modelled from the spec: the [ProcessObject] the threader reports to is
    "a capability with UpdateProgress(fraction), GetAbortGenerateData() ->
    bool, GetNameOfClass() -> string". [AbortGenerateData n] is what
    [GetAbortGenerateData()] answers at the [n]-th poll of a call. *)
Record ProcessObject : Type := {
  NameOfClass : string;
  AbortGenerateData : nat -> bool
}.

Record World : Type := {
  trace : list Event;
  polls : nat
}.

Definition initial_world : World := {| trace := []; polls := 0 |}.

Definition Exec (A : Type) : Type := World -> Outcome A * World.

Module ExecMonad.

Definition ret {A} (a : A) : Exec A := fun w => (Returned a, w).

Definition bind {A B} (m : Exec A) (k : A -> Exec B) : Exec B :=
  fun w =>
    match m w with
    | (Returned a, w') => k a w'
    | (Thrown e, w') => (Thrown e, w')
    end.

Definition throw {A} (e : Exception) : Exec A := fun w => (Thrown e, w).

Definition emit (ev : Event) : Exec unit :=
  fun w => (Returned tt, {| trace := trace w ++ [ev]; polls := polls w |}).

(** [filter && filter->GetAbortGenerateData()] *)
Definition poll (filter : option ProcessObject) : Exec bool :=
  match filter with
  | None => ret false
  | Some f =>
      fun w => (Returned (AbortGenerateData f (polls w)),
                {| trace := trace w; polls := S (polls w) |})
  end.

Definition invoke (f : Functor) (call : Event) : Exec unit :=
  match f with
  | EmptyFunctor => throw bad_function_call
  | UserFunction => emit call
  end.

Definition when (b : bool) (m : Exec unit) : Exec unit :=
  if b then m else ret tt.

End ExecMonad.
Import ExecMonad.

Declare Scope exec_scope.
Delimit Scope exec_scope with exec.
Notation "x <- m ;; k" := (bind m (fun x => k))
  (at level 100, m at level 99, k at level 200, right associativity) : exec_scope.
Notation "m ;; k" := (bind m (fun _ => k))
  (at level 100, k at level 200, right associativity) : exec_scope.
Local Open Scope exec_scope.

Definition run {A} (m : Exec A) : Outcome A * World := m initial_world.

Definition is_filter (filter : option ProcessObject) : bool :=
  match filter with Some _ => true | None => false end.

Definition aborted_description (filter : option ProcessObject) : string :=
  match filter with
  | Some f =>
      String.append "AbortGenerateData was called in "
        (String.append (NameOfClass f)
           " during multi-threaded part of filter execution")
  | None => EmptyString
  end.

(** The world after the report that opens both [Parallelize] functions. *)
Definition opened (filter : option ProcessObject) : World :=
  {| trace := if is_filter filter then [UpdateProgress 0 1] else []; polls := 0 |}.

(** The filter's flag is not set at any poll. *)
Definition never_aborts (filter : option ProcessObject) : Prop :=
  match filter with
  | None => True
  | Some f => forall n, AbortGenerateData f n = false
  end.

(** The calls of the user's function in a trace, in the order they were
    made. *)
Definition is_call (ev : Event) : bool :=
  match ev with
  | UpdateProgress _ _ => false
  | _ => true
  end.

Definition calls (t : list Event) : list Event :=
  filter (fun ev => is_call ev = true) t.

(** ** The scheduler *)

(** Modelled from the spec: [tbb::blocked_range<T>] belongs to the
    scheduler, "a splittable range object exposing IsDivisible, IsEmpty and
    a split operation": a half-open interval with a grain size. Its bounds
    stay between the two it was built with, so no operation on it wraps. *)
Record blocked_range : Type := {
  my_begin : Z;
  my_end : Z;
  my_grainsize : Z
}.

(** The scheduler's choice of where to split a region and with which
    ratio: a tree, with the plan for the constructed half first. *)
Inductive SplitPlan : Type :=
  | Stop
  | Split (p : proportional_split) (for_constructed for_argument : SplitPlan).

Definition valid_ratio (p : proportional_split) : Prop :=
  1 <= my_left p /\ 1 <= my_right p /\
  my_left p + my_right p < SizeValueType_modulus.

Fixpoint valid_plan (plan : SplitPlan) : Prop :=
  match plan with
  | Stop => True
  | Split p l r => valid_ratio p /\ valid_plan l /\ valid_plan r
  end.

(** Modelled from the spec: the task scheduler is an external collaborator,
    "a split-based parallel-for accepting a splittable range object
    exposing IsDivisible, IsEmpty and a split operation taking a ratio, and
    a per-leaf closure; and a partitioning policy selector". What it is
    free to choose is gathered here: the order in which the leaf tasks
    run, which of them run on the calling thread, and, under the automatic
    policy, where it stops splitting and with which (positive) ratios. A
    task runs to its end before the next one starts. *)
Record Scheduler : Type := {
  order : forall A : Type, list A -> list A;
  order_permutation : forall (A : Type) (l : list A), order A l ≡ₚ l;
  on_calling_thread : nat -> bool;
  plan : SplitPlan;
  plan_valid : valid_plan plan
}.

Module TBB.

Definition range_empty (r : blocked_range) : bool := negb (my_begin r <? my_end r).
Definition range_size (r : blocked_range) : Z := my_end r - my_begin r.
Definition range_is_divisible (r : blocked_range) : bool :=
  my_grainsize r <? range_size r.

(** Modelled from the spec: the split operation of [blocked_range], at
    the middle; the new range is the upper half, the argument keeps the
    lower one. *)
Definition range_split (r : blocked_range) : blocked_range * blocked_range :=
  let middle := my_begin r + (my_end r - my_begin r) / 2 in
  ({| my_begin := middle; my_end := my_end r; my_grainsize := my_grainsize r |},
   {| my_begin := my_begin r; my_end := middle; my_grainsize := my_grainsize r |}).

(** Modelled from the spec: the simple partitioner "forces maximal
    subdivision down to indivisible units". *)
Fixpoint simple_partition (fuel : nat) (r : blocked_range) : list blocked_range :=
  match fuel with
  | O => [r]
  | S fuel' =>
      if range_is_divisible r then
        let '(new, old) := range_split r in
        simple_partition fuel' old ++ simple_partition fuel' new
      else [r]
  end.

(** Modelled from the spec: the automatic partitioner "lets the scheduler
    choose chunk granularity"; it splits only a range that
    [is_divisible()]. *)
Fixpoint auto_partition (plan : SplitPlan) (range : TBBImageRegionSplitter)
    : Outcome (list TBBImageRegionSplitter) :=
  match plan with
  | Stop => Returned [range]
  | Split p for_constructed for_argument =>
      if is_divisible range then
        match proportional_split_constructor range p with
        | Thrown e => Thrown e
        | Returned halves =>
            match auto_partition for_constructed (constructed halves) with
            | Thrown e => Thrown e
            | Returned l1 =>
                match auto_partition for_argument (argument halves) with
                | Thrown e => Thrown e
                | Returned l2 => Returned (l1 ++ l2)
                end
            end
        end
      else Returned [range]
  end.

(** The leaf tasks, one after the other; [k] counts the tasks started,
    [shared] is the state the body captured by reference. The first
    exception ends the loop: no further task is started. *)
Fixpoint run_tasks {R St : Type} (sch : Scheduler)
    (body : bool -> St -> R -> Exec St) (k : nat) (shared : St) (tasks : list R)
    : Exec unit :=
  match tasks with
  | [] => ret tt
  | task :: tasks' =>
      shared' <- body (on_calling_thread sch k) shared task ;;
      run_tasks sch body (S k) shared' tasks'
  end.

(** Modelled from the spec: [tbb::parallel_for(range, body,
    simple_partitioner())]; an empty range is never scheduled. *)
Definition parallel_for_simple {St : Type} (sch : Scheduler)
    (range : blocked_range) (body : bool -> St -> blocked_range -> Exec St)
    (shared : St) : Exec unit :=
  if range_empty range then ret tt
  else
    run_tasks sch body 0 shared
      (order sch _ (simple_partition (Z.to_nat (range_size range)) range)).

(** Modelled from the spec: [tbb::parallel_for(range, body)], with the
    automatic partitioner; an empty range is never scheduled. *)
Definition parallel_for_auto {St : Type} (sch : Scheduler)
    (range : TBBImageRegionSplitter)
    (body : bool -> St -> TBBImageRegionSplitter -> Exec St)
    (shared : St) : Exec unit :=
  if empty range then ret tt
  else
    match auto_partition (plan sch) range with
    | Thrown e => throw e
    | Returned leaves => run_tasks sch body 0 shared (order sch _ leaves)
    end.

End TBB.
Import TBB.

(** ** TBBMultiThreader *)

Record TBBMultiThreader : Type := {
  m_SingleMethod : Functor;
  m_SingleData : Z;
  m_NumberOfThreads : Z
}.

Module Threader.

(** [TBBMultiThreader()], given what [GetGlobalDefaultNumberOfThreads()]
    answers. *)
Definition Build (GlobalDefaultNumberOfThreads : Z) : TBBMultiThreader :=
  {| m_SingleMethod := EmptyFunctor;
     m_SingleData := 0;
     m_NumberOfThreads := Z.max 1 GlobalDefaultNumberOfThreads |}.

Definition SetSingleMethod (self : TBBMultiThreader) (f : Functor) (data : Z)
    : TBBMultiThreader :=
  {| m_SingleMethod := f;
     m_SingleData := data;
     m_NumberOfThreads := m_NumberOfThreads self |}.

Definition SingleMethodExecute (sch : Scheduler) (self : TBBMultiThreader)
    : Exec unit :=
  match m_SingleMethod self with
  | EmptyFunctor => throw NoSingleMethodSet
  | UserFunction =>
      parallel_for_simple sch
        {| my_begin := 0;
           my_end := to_int (m_NumberOfThreads self);
           my_grainsize := 1 |}
        (fun _ (_ : unit) r =>
           invoke (m_SingleMethod self)
             (SingleMethodCall (my_begin r) (m_NumberOfThreads self)
                (m_SingleData self)))
        tt
  end.

(** The check that ends both [Parallelize] functions. *)
Definition report_end (filter : option ProcessObject) : Exec unit :=
  match filter with
  | None => ret tt
  | Some _ =>
      emit (UpdateProgress 1 1) ;;
      aborted <- poll filter ;;
      if aborted then throw (ProcessAborted (aborted_description filter))
      else ret tt
  end.

(** The lambda given to [parallel_for] in [ParallelizeArray]; [progress]
    is the atomic counter it captured. *)
Definition array_task (aFunc : Functor) (filter : option ProcessObject)
    (count : Z) (on_caller : bool) (progress : Z) (r : blocked_range)
    : Exec Z :=
  aborted <- poll filter ;;
  if aborted then throw (ProcessAborted (aborted_description filter))
  else
    invoke aFunc (ArrayCall (my_begin r)) ;;
    if is_filter filter then
      let progress := to_SizeValueType (progress + 1) in
      when on_caller (emit (UpdateProgress progress count)) ;;
      ret progress
    else ret progress.

Definition ParallelizeArray (sch : Scheduler)
    (firstIndex lastIndexPlus1 : Z) (aFunc : Functor)
    (filter : option ProcessObject) : Exec unit :=
  when (is_filter filter) (emit (UpdateProgress 0 1)) ;;
  (if to_SizeValueType (firstIndex + 1) <? lastIndexPlus1 then
     let count := to_unsigned (to_SizeValueType (lastIndexPlus1 - firstIndex)) in
     parallel_for_simple sch
       {| my_begin := firstIndex; my_end := lastIndexPlus1; my_grainsize := 1 |}
       (array_task aFunc filter count) 0
   else if to_SizeValueType (firstIndex + 1) =? lastIndexPlus1 then
     invoke aFunc (ArrayCall firstIndex)
   else ret tt) ;;
  report_end filter.

(** The lambda given to [parallel_for] in [ParallelizeImageRegion]. *)
Definition region_task (funcP : Functor) (filter : option ProcessObject)
    (totalCount : Z) (on_caller : bool) (pixelProgress : Z)
    (regionToProcess : TBBImageRegionSplitter) : Exec Z :=
  aborted <- poll filter ;;
  if aborted then throw (ProcessAborted (aborted_description filter))
  else
    invoke funcP (RegionCall (m_Index regionToProcess) (m_Size regionToProcess)) ;;
    if is_filter filter then
      let pixelCount := GetNumberOfPixels regionToProcess in
      let pixelProgress := to_SizeValueType (pixelProgress + pixelCount) in
      when on_caller (emit (UpdateProgress pixelProgress totalCount)) ;;
      ret pixelProgress
    else ret pixelProgress.

(** [index] and [size] are the caller's arrays; the loop reads their
    first [dimension] elements. *)
Definition region_of (dimension : nat) (index size : list Z) : ImageIORegion :=
  foldl
    (fun region d =>
       SetSize (SetIndex region d (default 0 (index !! d))) d
         (default 0 (size !! d)))
    (Region.Build dimension) (seq 0 dimension).

Definition ParallelizeImageRegion (sch : Scheduler) (self : TBBMultiThreader)
    (dimension : nat) (index size : list Z) (funcP : Functor)
    (filter : option ProcessObject) : Exec unit :=
  when (is_filter filter) (emit (UpdateProgress 0 1)) ;;
  (if m_NumberOfThreads self =? 1 then
     invoke funcP (RegionCall index size)
   else
     let region := region_of dimension index size in
     let regionSplitter : TBBImageRegionSplitter := region in
     let totalCount := GetNumberOfPixels region in
     parallel_for_auto sch regionSplitter
       (region_task funcP filter totalCount) 0) ;;
  report_end filter.

End Threader.
Import Threader.

Arguments report_end : simpl never.
Arguments aborted_description : simpl never.

(** The shape the two lambdas share: poll the filter, call the function,
    advance the captured counter and report it from the calling thread. *)
Definition polled_task {R : Type} (f : Functor) (filter : option ProcessObject)
    (call : R -> Event) (advance : Z -> R -> Z) (total : Z)
    (on_caller : bool) (progress : Z) (r : R) : Exec Z :=
  aborted <- poll filter ;;
  if aborted then throw (ProcessAborted (aborted_description filter))
  else
    invoke f (call r) ;;
    if is_filter filter then
      when on_caller (emit (UpdateProgress (advance progress r) total)) ;;
      ret (advance progress r)
    else ret progress.

(** ** Sample inputs *)

Module Samples.

Definition even_split : proportional_split := {| my_left := 1; my_right := 1 |}.
Definition one_to_three : proportional_split := {| my_left := 1; my_right := 3 |}.

(** A ratio whose sum is 1 in [size_t]. *)
Definition wrapping_sum : proportional_split :=
  {| my_left := 2 ^ 64 - 1; my_right := 2 |}.

Definition one_to_two : proportional_split := {| my_left := 1; my_right := 2 |}.

Definition line (index size : Z) : ImageIORegion :=
  {| m_ImageDimension := 1; m_Index := [index]; m_Size := [size] |}.

Definition plane (i0 s0 i1 s1 : Z) : ImageIORegion :=
  {| m_ImageDimension := 2; m_Index := [i0; i1]; m_Size := [s0; s1] |}.

(** Tasks in the order of the partition, all on the calling thread, a
    region split once in the middle. *)
Definition in_order : Scheduler.
Proof.
  refine {| order := fun _ l => l;
            on_calling_thread := fun _ => true;
            plan := Split even_split Stop Stop |}.
  - intros A l. reflexivity.
  - simpl. unfold valid_ratio, SizeValueType_modulus. simpl. lia.
Defined.

(** Tasks in the opposite order, none on the calling thread, no region
    ever split. *)
Definition backwards : Scheduler.
Proof.
  refine {| order := fun A l => reverse l;
            on_calling_thread := fun _ => false;
            plan := Stop |}.
  - intros A l. apply reverse_Permutation.
  - exact I.
Defined.

Definition never_aborting : ProcessObject :=
  {| NameOfClass := "MedianImageFilter"; AbortGenerateData := fun _ => false |}.

Definition aborting : ProcessObject :=
  {| NameOfClass := "MedianImageFilter"; AbortGenerateData := fun _ => true |}.

Definition threader (n : Z) (f : Functor) : TBBMultiThreader :=
  {| m_SingleMethod := f; m_SingleData := 0; m_NumberOfThreads := n |}.

End Samples.

(** ** Reading a trace *)

(** The progress reports of a trace, as (numerator, denominator), in the
    order they were made. *)
Definition progress_reports (t : list Event) : list (Z * Z) :=
  omap (fun ev => match ev with UpdateProgress n d => Some (n, d) | _ => None end) t.

(** A report [(n, d)] stands for the fraction [n / d]: it is a proper
    progress value when it lies in [[0, 1]], and one report is not above
    another when the fractions are in that order. *)
Definition proper_fraction (a : Z * Z) : Prop := 0 <= a.1 <= a.2 /\ 0 < a.2.

Definition fraction_le (a b : Z * Z) : Prop := a.1 * b.2 <= b.1 * a.2.

(** Whether a call of the region function was given a sub-region that
    holds the point [x], and how many calls of a trace were. *)
Definition covers (ev : Event) (x : list Z) : bool :=
  match ev with
  | RegionCall index size => inside index size x
  | _ => false
  end.

Definition covering (t : list Event) (x : list Z) : nat :=
  length (filter (fun ev => covers ev x = true) t).

(** The filter's flag is not set at any of the first [k] polls. *)
Definition quiet_before (f : ProcessObject) (k : nat) : Prop :=
  forall j, (j < k)%nat -> AbortGenerateData f j = false.

(** A filter whose flag is set from the [k]-th poll on. *)
Definition aborting_from (k : nat) : ProcessObject :=
  {| NameOfClass := "MedianImageFilter"; AbortGenerateData := fun n => (k <=? n)%nat |}.

(** The caller's arrays describe a region of the index and size types
    that lies within the index type. *)
Definition arrays_wf (dimension : nat) (index size : list Z) : Prop :=
  length index = dimension /\ length size = dimension /\
  Forall is_IndexValueType index /\ Forall is_SizeValueType size /\
  forall d i s, index !! d = Some i -> size !! d = Some s ->
                i + s <= IndexValueType_max + 1.

(** * Properties *)

(** ** Integer conversions *)

Section IntFacts.

Lemma to_SizeValueType_id z : is_SizeValueType z -> to_SizeValueType z = z.
Proof. unfold is_SizeValueType, to_SizeValueType. intros. apply Z.mod_small. lia. Qed.

Lemma to_SizeValueType_range z : is_SizeValueType (to_SizeValueType z).
Proof.
  unfold is_SizeValueType, to_SizeValueType, SizeValueType_modulus.
  apply Z.mod_pos_bound. lia.
Qed.

Lemma to_IndexValueType_id z : is_IndexValueType z -> to_IndexValueType z = z.
Proof.
  unfold is_IndexValueType, to_IndexValueType, IndexValueType_min,
    IndexValueType_max, SizeValueType_modulus.
  intros. rewrite Z.mod_small; lia.
Qed.

(** Adding an unsigned and a signed value through the unsigned type and
    converting back is exact when the sum is an [IndexValueType]. *)
Lemma index_plus_exact myP idx :
  is_IndexValueType (myP + idx) ->
  to_IndexValueType (to_SizeValueType (myP + to_SizeValueType idx)) = myP + idx.
Proof.
  unfold is_IndexValueType, to_IndexValueType, to_SizeValueType,
    IndexValueType_min, IndexValueType_max, SizeValueType_modulus.
  intros H.
  rewrite Zplus_mod_idemp_r.
  rewrite Zplus_mod_idemp_l.
  rewrite Z.mod_small; lia.
Qed.

Lemma to_int_id z : 0 <= z <= INT_MAX -> to_int z = z.
Proof. unfold to_int, INT_MAX. intros. rewrite Z.mod_small; lia. Qed.

End IntFacts.

(** ** The split point *)

Section SplitPoint.

Variable p : proportional_split.
Hypothesis p_valid : valid_ratio p.

Lemma divisor_exact :
  to_SizeValueType (my_left p + my_right p) = my_left p + my_right p.
Proof.
  destruct p_valid as (? & ? & ?).
  apply to_SizeValueType_id. unfold is_SizeValueType. lia.
Qed.

Lemma divisor_not_zero :
  (to_SizeValueType (my_left p + my_right p) =? 0) = false.
Proof.
  rewrite divisor_exact. destruct p_valid as (? & ? & ?). apply Z.eqb_neq. lia.
Qed.

(** The quotient stays below [size] even when the product wraps. *)
Lemma quotient_below size :
  0 < size ->
  0 <= to_SizeValueType (size * my_right p) / (my_left p + my_right p) < size.
Proof.
  destruct p_valid as (Hl & Hr & Hsum). intros Hs.
  pose proof (to_SizeValueType_range (size * my_right p)) as [H0 _].
  assert (to_SizeValueType (size * my_right p) <= size * my_right p) as Hle.
  { unfold to_SizeValueType, SizeValueType_modulus.
    apply Z.mod_le; [nia|lia]. }
  split.
  - apply Z.div_pos; lia.
  - apply Z.div_lt_upper_bound; nia.
Qed.

Lemma split_point_range size : 1 < size -> 1 <= split_point size p <= size - 1.
Proof.
  intros Hs. unfold split_point. rewrite divisor_exact.
  pose proof (quotient_below size ltac:(lia)) as Hq.
  repeat case_match; lia.
Qed.

Lemma split_point_exact size :
  1 < size -> size * my_right p < SizeValueType_modulus ->
  split_point size p = described_cut size p.
Proof.
  intros Hs Hprod. unfold split_point, described_cut, clamp.
  rewrite divisor_exact.
  destruct p_valid as (Hl & Hr & Hsum).
  rewrite (to_SizeValueType_id (size * my_right p))
    by (unfold is_SizeValueType; nia).
  assert (0 <= size * my_right p / (my_left p + my_right p) < size) as Hq.
  { split; [apply Z.div_pos; nia | apply Z.div_lt_upper_bound; nia]. }
  repeat case_match; lia.
Qed.

End SplitPoint.

(** ** The scan over the dimensions *)

Section Scan.

Implicit Types (this region : TBBImageRegionSplitter) (p : proportional_split).

Lemma split_scan_cases n this region p :
  (split_scan n this region p = Thrown RegionCouldNotBeSplit /\
   forall d, (d < n)%nat -> GetSize this d <= 1) \/
  (exists d, (d < n)%nat /\ 1 < GetSize this d /\
     (forall d', (d < d' < n)%nat -> GetSize this d' <= 1) /\
     split_scan n this region p = split_along d this region p).
Proof.
  induction n as [|n IH]; simpl.
  - left. split; [reflexivity | intros; lia].
  - destruct (Z.ltb_spec 1 (GetSize this n)) as [Hgt|Hle].
    + right. exists n. split_and!; first [lia | intros; lia | reflexivity].
    + destruct IH as [[E Hall]|(d & Hd & Hsz & Habove & E)].
      * left. split; [exact E|]. intros d Hd.
        destruct (decide (d = n)) as [->|]; [exact Hle | apply Hall; lia].
      * right. exists d. split_and!; [lia|lia| |exact E].
        intros d' Hd'. destruct (decide (d' = n)) as [->|]; [exact Hle|].
        apply Habove. lia.
Qed.

Lemma split_scan_unique region d d' :
  chosen_dimension region d -> chosen_dimension region d' -> d = d'.
Proof.
  intros (H1 & H2 & H3) (H1' & H2' & H3').
  destruct (Nat.lt_total d d') as [Hlt|[->|Hlt]]; [|reflexivity|].
  - specialize (H3 d' ltac:(lia)). lia.
  - specialize (H3' d ltac:(lia)). lia.
Qed.

Lemma constructor_cases region p :
  (proportional_split_constructor region p = Thrown RegionCouldNotBeSplit /\
   forall d, (d < GetImageDimension region)%nat -> GetSize region d <= 1) \/
  (exists d, chosen_dimension region d /\
     proportional_split_constructor region p = split_along d region region p).
Proof.
  unfold proportional_split_constructor, chosen_dimension.
  destruct (split_scan_cases (GetImageDimension region) region region p)
    as [?|(d & ? & ? & ? & ?)]; [left; assumption|].
  right. exists d. auto.
Qed.

Lemma existsb_dimension (f : Z -> bool) region :
  existsb (fun d => f (GetSize region d)) (seq 0 (GetImageDimension region)) = true
  <-> exists d, (d < GetImageDimension region)%nat /\ f (GetSize region d) = true.
Proof.
  rewrite existsb_exists. split.
  - intros (d & Hin & Hf). apply in_seq in Hin. exists d. split; [lia|exact Hf].
  - intros (d & Hd & Hf). exists d. split; [apply in_seq; lia|exact Hf].
Qed.

Lemma is_divisible_true region :
  is_divisible region = true
  <-> exists d, (d < GetImageDimension region)%nat /\ 1 < GetSize region d.
Proof.
  unfold is_divisible.
  rewrite (existsb_dimension (fun s => 1 <? s)).
  split; intros (d & Hd & H); exists d; (split; [exact Hd|]);
    [apply Z.ltb_lt in H | apply Z.ltb_lt]; exact H.
Qed.

Lemma is_divisible_false region :
  is_divisible region = false
  <-> forall d, (d < GetImageDimension region)%nat -> GetSize region d <= 1.
Proof.
  rewrite <- not_true_iff_false, is_divisible_true. split.
  - intros Hno d Hd. destruct (Z.le_gt_cases (GetSize region d) 1); [assumption|].
    exfalso. apply Hno. exists d. split; [exact Hd | lia].
  - intros Hall (d & Hd & Hgt). specialize (Hall d Hd). lia.
Qed.

Lemma empty_true region :
  empty region = true
  <-> exists d, (d < GetImageDimension region)%nat /\ GetSize region d = 0.
Proof.
  unfold empty.
  rewrite (existsb_dimension (fun s => s =? 0)).
  split; intros (d & Hd & H); exists d; (split; [exact Hd|]);
    [apply Z.eqb_eq in H | apply Z.eqb_eq]; exact H.
Qed.

Lemma is_divisible_chosen region :
  is_divisible region = true -> exists d, chosen_dimension region d.
Proof.
  intros Hdiv.
  destruct (constructor_cases region {| my_left := 1; my_right := 1 |})
    as [[_ Hall]|(d & Hd & _)]; [|exists d; exact Hd].
  apply is_divisible_false in Hall. congruence.
Qed.

End Scan.

(** ** Vectors with one element replaced *)

Section Vectors.

Lemma GetSize_lookup r d s : m_Size r !! d = Some s -> GetSize r d = s.
Proof. unfold GetSize. intros ->. reflexivity. Qed.

Lemma GetSize_gt_lookup r d : 1 < GetSize r d -> m_Size r !! d = Some (GetSize r d).
Proof. unfold GetSize. destruct (m_Size r !! d); simpl; [reflexivity|lia]. Qed.

Lemma product_insert (l : list Z) d s a b :
  l !! d = Some s -> a + b = s ->
  foldr Z.mul 1 (<[d := a]> l) + foldr Z.mul 1 (<[d := b]> l) = foldr Z.mul 1 l.
Proof.
  revert d. induction l as [|x l IH]; intros [|d] Hl Hab; simpl in *; try discriminate.
  - injection Hl as ->. nia.
  - rewrite <- (IH d Hl Hab). nia.
Qed.

Lemma sum_insert (l : list Z) d s a :
  l !! d = Some s ->
  foldr Z.add 0 (<[d := a]> l) = foldr Z.add 0 l - s + a.
Proof.
  revert d. induction l as [|x l IH]; intros [|d] Hl; simpl in *; try discriminate.
  - injection Hl as ->. lia.
  - rewrite (IH d Hl). lia.
Qed.

(** Cutting dimension [d] at [c] cuts the index set in two. *)
Lemma inside_cut (index size x : list Z) d i s c :
  index !! d = Some i -> size !! d = Some s -> 0 <= c <= s ->
  inside index size x
  = inside index (<[d := c]> size) x
    || inside (<[d := i + c]> index) (<[d := s - c]> size) x.
Proof.
  revert size x d.
  induction index as [|i0 index IH]; intros [|s0 size] [|v x] [|d] Hi Hs Hc;
    simpl in *; try discriminate; try reflexivity.
  - simplify_eq.
    destruct (inside index size x); rewrite ?andb_false_r; [|reflexivity].
    rewrite !andb_true_r.
    destruct (Z.leb_spec i v), (Z.ltb_spec v (i + s)), (Z.ltb_spec v (i + c)),
      (Z.leb_spec (i + c) v), (Z.ltb_spec v (i + c + (s - c)));
      simpl; try reflexivity; lia.
  - rewrite (IH size x d Hi Hs Hc).
    destruct ((i0 <=? v) && (v <? i0 + s0)); reflexivity.
Qed.

Lemma inside_cut_disjoint (index size x : list Z) d i s c :
  index !! d = Some i -> size !! d = Some s ->
  inside index (<[d := c]> size) x
    && inside (<[d := i + c]> index) (<[d := s - c]> size) x = false.
Proof.
  revert size x d.
  induction index as [|i0 index IH]; intros [|s0 size] [|v x] [|d] Hi Hs;
    simpl in *; try discriminate; try reflexivity.
  - simplify_eq.
    destruct (Z.ltb_spec v (i + c)), (Z.leb_spec (i + c) v);
      rewrite ?andb_false_r, ?andb_false_l; simpl; try reflexivity; lia.
  - destruct ((i0 <=? v) && (v <? i0 + s0)); simpl; [|reflexivity].
    apply IH; assumption.
Qed.

End Vectors.

(** ** One split *)

Section ChosenDimension.

Variables (region : TBBImageRegionSplitter) (d : nat).
Hypothesis region_wf : Region.wf region.
Hypothesis d_chosen : chosen_dimension region d.

Lemma chosen_size : m_Size region !! d = Some (GetSize region d).
Proof. destruct d_chosen as (_ & Hgt & _). apply GetSize_gt_lookup, Hgt. Qed.

Lemma chosen_index : m_Index region !! d = Some (GetIndex region d).
Proof.
  destruct region_wf as (Hlen & _). destruct d_chosen as (Hd & _).
  unfold GetIndex. unfold GetImageDimension in Hd.
  destruct (lookup_lt_is_Some_2 (m_Index region) d ltac:(lia)) as [v ->].
  reflexivity.
Qed.

Lemma chosen_size_bounds : 1 < GetSize region d < SizeValueType_modulus.
Proof.
  destruct region_wf as (_ & _ & _ & Hsz). destruct d_chosen as (_ & Hgt & _).
  pose proof (Forall_lookup_1 _ _ _ _ Hsz chosen_size) as Hs.
  unfold is_SizeValueType in Hs. lia.
Qed.

End ChosenDimension.

Section OneSplit.

Variables (region : TBBImageRegionSplitter) (p : proportional_split) (d : nat).
Hypothesis region_wf : Region.wf region.
Hypothesis p_valid : valid_ratio p.
Hypothesis d_chosen : chosen_dimension region d.

Let s := GetSize region d.
Let i := GetIndex region d.
Let c := split_point s p.

Let chosen_size := chosen_size region d d_chosen.
Let chosen_index := chosen_index region d region_wf d_chosen.
Let chosen_size_bounds := chosen_size_bounds region d region_wf d_chosen.

Lemma cut_bounds : 1 <= c <= s - 1.
Proof. apply split_point_range; [exact p_valid | apply chosen_size_bounds]. Qed.

(** What the constructor leaves in the two splitters; only the new index
    of [region] still shows the conversions. *)
Lemma constructor_returns :
  proportional_split_constructor region p
  = Returned
      {| constructed := SetSize region d c;
         argument :=
           SetIndex (SetSize region d (s - c)) d
             (to_IndexValueType
                (to_SizeValueType (c + to_SizeValueType i))) |}.
Proof.
  destruct (constructor_cases region p) as [[_ Hall]|(d' & Hd' & ->)].
  - pose proof d_chosen as (Hd & Hgt & _). specialize (Hall d Hd). lia.
  - rewrite <- (split_scan_unique region d d' d_chosen Hd').
    unfold split_along. rewrite (divisor_not_zero p p_valid).
    fold s. fold c. cbv zeta.
    rewrite (to_SizeValueType_id (s - c)).
    + reflexivity.
    + pose proof cut_bounds. pose proof chosen_size_bounds.
      unfold is_SizeValueType. lia.
Qed.

Hypothesis region_in_range : in_index_range region.

Lemma new_index_exact :
  to_IndexValueType (to_SizeValueType (c + to_SizeValueType i)) = i + c.
Proof.
  rewrite index_plus_exact; [lia|].
  pose proof region_wf as (_ & _ & Hidx & _).
  pose proof (Forall_lookup_1 _ _ _ _ Hidx chosen_index) as Hi.
  pose proof (region_in_range d i s chosen_index chosen_size).
  pose proof cut_bounds.
  unfold is_IndexValueType in *. lia.
Qed.

Lemma constructor_returns_exact :
  proportional_split_constructor region p
  = Returned
      {| constructed := SetSize region d c;
         argument := SetIndex (SetSize region d (s - c)) d (i + c) |}.
Proof. rewrite constructor_returns, new_index_exact. reflexivity. Qed.

Lemma constructed_wf : Region.wf (SetSize region d c).
Proof.
  pose proof region_wf as (H1 & H2 & H3 & H4).
  pose proof cut_bounds. pose proof chosen_size_bounds.
  unfold Region.wf. simpl. rewrite length_insert. split_and!; try assumption.
  apply Forall_insert; [assumption|]. unfold is_SizeValueType. lia.
Qed.

Lemma argument_wf : Region.wf (SetIndex (SetSize region d (s - c)) d (i + c)).
Proof.
  pose proof region_wf as (H1 & H2 & H3 & H4).
  pose proof cut_bounds. pose proof chosen_size_bounds.
  pose proof (Forall_lookup_1 _ _ _ _ H3 chosen_index) as Hi.
  pose proof (region_in_range d i s chosen_index chosen_size).
  unfold Region.wf. simpl. rewrite !length_insert. split_and!; try assumption.
  - apply Forall_insert; [assumption|]. unfold is_IndexValueType in *. lia.
  - apply Forall_insert; [assumption|]. unfold is_SizeValueType. lia.
Qed.

Lemma constructed_in_range : in_index_range (SetSize region d c).
Proof.
  intros d' i' s'. simpl. intros Hi' Hs'.
  pose proof cut_bounds.
  destruct (decide (d' = d)) as [->|Hne].
  - rewrite list_lookup_insert_eq in Hs' by (eapply lookup_lt_Some, chosen_size).
    rewrite chosen_index in Hi'.
    injection Hs' as Hs'. injection Hi' as Hi'.
    pose proof (region_in_range d i s chosen_index chosen_size).
    unfold i, s, c in *. lia.
  - rewrite list_lookup_insert_ne in Hs' by congruence.
    exact (region_in_range d' i' s' Hi' Hs').
Qed.

Lemma argument_in_range :
  in_index_range (SetIndex (SetSize region d (s - c)) d (i + c)).
Proof.
  intros d' i' s'. simpl. intros Hi' Hs'.
  destruct (decide (d' = d)) as [->|Hne].
  - rewrite list_lookup_insert_eq in Hs' by (eapply lookup_lt_Some, chosen_size).
    rewrite list_lookup_insert_eq in Hi' by (eapply lookup_lt_Some, chosen_index).
    injection Hs' as Hs'. injection Hi' as Hi'.
    pose proof (region_in_range d i s chosen_index chosen_size).
    unfold i, s, c in *. lia.
  - rewrite list_lookup_insert_ne in Hs' by congruence.
    rewrite list_lookup_insert_ne in Hi' by congruence.
    exact (region_in_range d' i' s' Hi' Hs').
Qed.

Lemma halves_positive :
  positive_sizes region ->
  positive_sizes (SetSize region d c) /\
  positive_sizes (SetIndex (SetSize region d (s - c)) d (i + c)).
Proof.
  unfold positive_sizes. simpl. intros Hpos. pose proof cut_bounds.
  split; (apply Forall_insert; [assumption|lia]).
Qed.

Lemma halves_partition x :
  IsInside region x
  = IsInside (SetSize region d c) x
    || IsInside (SetIndex (SetSize region d (s - c)) d (i + c)) x.
Proof.
  unfold IsInside. simpl. pose proof cut_bounds.
  apply inside_cut; [apply chosen_index | apply chosen_size | lia].
Qed.

Lemma halves_disjoint x :
  IsInside (SetSize region d c) x
    && IsInside (SetIndex (SetSize region d (s - c)) d (i + c)) x = false.
Proof.
  unfold IsInside. simpl.
  apply inside_cut_disjoint; [apply chosen_index | apply chosen_size].
Qed.

Lemma halves_pixels :
  GetNumberOfPixels (SetSize region d c)
  + GetNumberOfPixels (SetIndex (SetSize region d (s - c)) d (i + c))
  = GetNumberOfPixels region.
Proof.
  unfold GetNumberOfPixels. simpl.
  apply (product_insert _ d s); [apply chosen_size | lia].
Qed.

Lemma halves_smaller :
  foldr Z.add 0 (m_Size (SetSize region d c)) < foldr Z.add 0 (m_Size region) /\
  foldr Z.add 0 (m_Size (SetIndex (SetSize region d (s - c)) d (i + c)))
    < foldr Z.add 0 (m_Size region).
Proof.
  simpl. rewrite !(sum_insert _ d s) by apply chosen_size.
  pose proof cut_bounds. lia.
Qed.

End OneSplit.

(** Everything the recursion needs to know about one split. *)
Lemma split_step (region : TBBImageRegionSplitter) (p : proportional_split) :
  Region.wf region -> in_index_range region -> valid_ratio p ->
  is_divisible region = true ->
  exists halves,
    proportional_split_constructor region p = Returned halves /\
    (Region.wf (constructed halves) /\ Region.wf (argument halves)) /\
    (in_index_range (constructed halves) /\ in_index_range (argument halves)) /\
    (positive_sizes region ->
     positive_sizes (constructed halves) /\ positive_sizes (argument halves)) /\
    (forall x,
       IsInside region x
       = IsInside (constructed halves) x || IsInside (argument halves) x) /\
    (forall x,
       IsInside (constructed halves) x && IsInside (argument halves) x = false) /\
    GetNumberOfPixels (constructed halves) + GetNumberOfPixels (argument halves)
    = GetNumberOfPixels region /\
    foldr Z.add 0 (m_Size (constructed halves)) < foldr Z.add 0 (m_Size region) /\
    foldr Z.add 0 (m_Size (argument halves)) < foldr Z.add 0 (m_Size region).
Proof.
  intros Hwf Hrange Hp Hdiv.
  destruct (is_divisible_chosen region Hdiv) as [d Hd].
  eexists. split; [apply (constructor_returns_exact region p d); assumption|].
  simpl. split_and!.
  - apply constructed_wf; assumption.
  - apply argument_wf; assumption.
  - apply constructed_in_range; assumption.
  - apply argument_in_range; assumption.
  - apply halves_positive; assumption.
  - apply halves_partition; assumption.
  - apply halves_disjoint; assumption.
  - apply halves_pixels; assumption.
  - apply (halves_smaller region p d); assumption.
  - apply (halves_smaller region p d); assumption.
Qed.

(** ** Splitting down to single elements *)

Section Recursion.

Variable ratio : TBBImageRegionSplitter -> proportional_split.
Hypothesis ratio_valid : forall r, valid_ratio (ratio r).

Lemma holders_app l1 l2 x : holders (l1 ++ l2) x = (holders l1 x + holders l2 x)%nat.
Proof. unfold holders. rewrite filter_app, length_app. reflexivity. Qed.

Lemma holders_single r x :
  holders [r] x = if IsInside r x then 1%nat else 0%nat.
Proof.
  unfold holders. rewrite filter_cons, filter_nil.
  destruct (IsInside r x); case_decide; simpl; congruence.
Qed.

Lemma indivisible_ones region :
  Region.wf region -> positive_sizes region -> is_divisible region = false ->
  Forall (fun s => s = 1) (m_Size region).
Proof.
  intros (_ & Hlen & _) Hpos Hdiv.
  rewrite is_divisible_false in Hdiv.
  apply Forall_lookup_2. intros d s Hs.
  pose proof (Forall_lookup_1 _ _ _ _ Hpos Hs) as Hge. simpl in Hge.
  apply lookup_lt_Some in Hs as Hd.
  specialize (Hdiv d ltac:(unfold GetImageDimension; lia)).
  rewrite (GetSize_lookup _ _ _ Hs) in Hdiv. lia.
Qed.

Lemma ones_product (l : list Z) : Forall (fun s => s = 1) l -> foldr Z.mul 1 l = 1.
Proof. induction 1 as [|x l -> _ IH]; simpl; [reflexivity | rewrite IH; reflexivity]. Qed.

Lemma divisible_sum region :
  positive_sizes region -> is_divisible region = true ->
  0 < foldr Z.add 0 (m_Size region).
Proof.
  intros Hpos Hdiv. apply is_divisible_true in Hdiv as (d & _ & Hgt).
  apply GetSize_gt_lookup in Hgt. unfold positive_sizes in Hpos.
  revert Hpos Hgt. generalize (GetSize region d). generalize d.
  induction (m_Size region) as [|x l IH]; intros [|d'] s Hpos Hl;
    simpl in *; try discriminate; inversion_clear Hpos as [|? ? Hx Hl'].
  - assert (0 <= foldr Z.add 0 l).
    { clear -Hl'. induction Hl'; simpl; lia. }
    lia.
  - specialize (IH d' s Hl' Hl). lia.
Qed.

Lemma split_recursively_leaves fuel region :
  Region.wf region -> in_index_range region -> positive_sizes region ->
  (Z.to_nat (foldr Z.add 0%Z (m_Size region)) <= fuel)%nat ->
  exists leaves,
    split_recursively fuel ratio region = Some (Returned leaves) /\
    Forall (fun leaf => Forall (fun s => s = 1) (m_Size leaf)) leaves /\
    Z.of_nat (length leaves) = GetNumberOfPixels region /\
    forall x, holders leaves x = if IsInside region x then 1%nat else 0%nat.
Proof.
  revert region. induction fuel as [|fuel IH]; intros region Hwf Hrange Hpos Hfuel.
  all: destruct (is_divisible region) eqn:Hdiv.
  1: { pose proof (divisible_sum region Hpos Hdiv). lia. }
  1, 3: (exists [region]; split_and!;
      [ simpl; rewrite Hdiv; reflexivity
      | repeat constructor; apply indivisible_ones; assumption
      | unfold GetNumberOfPixels;
        rewrite ones_product by (apply indivisible_ones; assumption); reflexivity
      | apply holders_single ]).
  destruct (split_step region (ratio region) Hwf Hrange (ratio_valid region) Hdiv)
    as (halves & Hsplit & [Hwf1 Hwf2] & [Hr1 Hr2] & Hpos' & Hcover & Hdisj
        & Hpix & Hlt1 & Hlt2).
  destruct (Hpos' Hpos) as [Hpos1 Hpos2].
  destruct (IH (constructed halves) Hwf1 Hr1 Hpos1 ltac:(lia))
    as (l1 & E1 & Hones1 & Hlen1 & Hhold1).
  destruct (IH (argument halves) Hwf2 Hr2 Hpos2 ltac:(lia))
    as (l2 & E2 & Hones2 & Hlen2 & Hhold2).
  exists (l1 ++ l2). split_and!.
  - simpl. rewrite Hdiv, Hsplit, E1, E2. reflexivity.
  - apply Forall_app. split; assumption.
  - rewrite length_app, Nat2Z.inj_add. lia.
  - intros x. rewrite holders_app, Hhold1, Hhold2, (Hcover x).
    specialize (Hdisj x).
    destruct (IsInside (constructed halves) x), (IsInside (argument halves) x);
      simpl in *; congruence.
Qed.

End Recursion.

(** ** Reading the two halves *)

Section Accessors.

Variables (r : ImageIORegion) (d : nat).

Lemma GetSize_SetSize v : (d < length (m_Size r))%nat -> GetSize (SetSize r d v) d = v.
Proof. intros. unfold GetSize, SetSize. simpl. rewrite list_lookup_insert_eq; done. Qed.

Lemma GetSize_SetSize_other d' v : d' <> d -> GetSize (SetSize r d v) d' = GetSize r d'.
Proof. intros. unfold GetSize, SetSize. simpl. rewrite list_lookup_insert_ne; done. Qed.

Lemma GetIndex_SetIndex v : (d < length (m_Index r))%nat -> GetIndex (SetIndex r d v) d = v.
Proof. intros. unfold GetIndex, SetIndex. simpl. rewrite list_lookup_insert_eq; done. Qed.

Lemma GetIndex_SetIndex_other d' v : d' <> d -> GetIndex (SetIndex r d v) d' = GetIndex r d'.
Proof. intros. unfold GetIndex, SetIndex. simpl. rewrite list_lookup_insert_ne; done. Qed.

End Accessors.

Section SampleFacts.

Import Samples.

Lemma even_split_valid : valid_ratio even_split.
Proof. unfold valid_ratio, SizeValueType_modulus. simpl. lia. Qed.

Lemma one_to_three_valid : valid_ratio one_to_three.
Proof. unfold valid_ratio, SizeValueType_modulus. simpl. lia. Qed.

Lemma line_wf index size :
  is_IndexValueType index -> is_SizeValueType size -> Region.wf (line index size).
Proof.
  intros. unfold Region.wf. simpl.
  split_and!; try reflexivity;
    repeat (apply Forall_cons_2; [assumption|]); apply Forall_nil_2.
Qed.

Lemma line_in_range index size :
  index + size <= IndexValueType_max + 1 -> in_index_range (line index size).
Proof. intros H [|d] i s; simpl; intros Hi Hs; simplify_eq. exact H. Qed.

Lemma plane_wf i0 s0 i1 s1 :
  is_IndexValueType i0 -> is_SizeValueType s0 ->
  is_IndexValueType i1 -> is_SizeValueType s1 ->
  Region.wf (plane i0 s0 i1 s1).
Proof.
  intros. unfold Region.wf. simpl.
  split_and!; try reflexivity;
    repeat (apply Forall_cons_2; [assumption|]); apply Forall_nil_2.
Qed.

Lemma plane_in_range i0 s0 i1 s1 :
  i0 + s0 <= IndexValueType_max + 1 -> i1 + s1 <= IndexValueType_max + 1 ->
  in_index_range (plane i0 s0 i1 s1).
Proof.
  intros H0 H1 [|[|d]] i s; simpl; intros Hi Hs; simplify_eq; assumption.
Qed.

Lemma small_is_index z : -1000 <= z <= 1000 -> is_IndexValueType z.
Proof. unfold is_IndexValueType, IndexValueType_min, IndexValueType_max. lia. Qed.

Lemma small_is_size z : 0 <= z <= 1000 -> is_SizeValueType z.
Proof. unfold is_SizeValueType, SizeValueType_modulus. lia. Qed.

Lemma line_chosen index size : 1 < size -> chosen_dimension (line index size) 0.
Proof.
  intros. unfold chosen_dimension, GetImageDimension, GetSize. simpl.
  split_and!; [lia | assumption | intros; lia].
Qed.

End SampleFacts.

(** ** The claims about the splitter *)

(** C2, as amended. One split of a well-formed region that lies within the
    index type and has some size above 1, with a ratio whose components are
    at least 1 and whose sum fits the size type, returns two regions whose
    index sets are disjoint and whose union is the region's index set. If
    moreover every size is at least 1, splitting for as long as
    [is_divisible()] holds ends, within as many levels as the sizes sum to,
    in leaves of size 1 in every dimension; there are as many leaves as the
    region has elements, every point of the region lies in exactly one
    leaf, and no other point lies in any. *)
Theorem split_is_partition (region : TBBImageRegionSplitter)
    (p : proportional_split)
    (ratio : TBBImageRegionSplitter -> proportional_split) :
  Region.wf region -> in_index_range region ->
  valid_ratio p -> (forall r, valid_ratio (ratio r)) ->
  (exists d, (d < GetImageDimension region)%nat /\ 1 < GetSize region d) ->
  (exists halves,
     proportional_split_constructor region p = Returned halves /\
     forall x,
       IsInside region x
       = IsInside (constructed halves) x || IsInside (argument halves) x /\
       IsInside (constructed halves) x && IsInside (argument halves) x = false)
  /\
  (positive_sizes region ->
   forall fuel, (Z.to_nat (foldr Z.add 0%Z (m_Size region)) <= fuel)%nat ->
   exists leaves,
     split_recursively fuel ratio region = Some (Returned leaves) /\
     Forall (fun leaf => Forall (fun s => s = 1) (m_Size leaf)) leaves /\
     Z.of_nat (length leaves) = GetNumberOfPixels region /\
     forall x, holders leaves x = if IsInside region x then 1%nat else 0%nat).
Proof.
  intros Hwf Hrange Hp Hratio Hsome.
  apply is_divisible_true in Hsome.
  split.
  - destruct (split_step region p Hwf Hrange Hp Hsome)
      as (halves & E & _ & _ & _ & Hcover & Hdisj & _).
    exists halves. split; [exact E|]. intros x. split; [apply Hcover | apply Hdisj].
  - intros Hpos fuel Hfuel.
    apply split_recursively_leaves; assumption.
Qed.

Lemma split_is_partition_witness :
  let region := Samples.plane 0 2 10 3 in
  exists leaves,
    split_recursively 5 (fun _ => Samples.even_split) region = Some (Returned leaves) /\
    Z.of_nat (length leaves) = 6 /\
    holders leaves [1; 11] = 1%nat /\ holders leaves [2; 11] = 0%nat.
Proof.
  intros region.
  assert (Region.wf region) as Hwf.
  { apply plane_wf; first [apply small_is_index | apply small_is_size]; lia. }
  assert (in_index_range region) as Hrange.
  { apply plane_in_range; unfold IndexValueType_max; lia. }
  assert (exists d, (d < GetImageDimension region)%nat /\ 1 < GetSize region d) as Hsome.
  { exists 1%nat. unfold GetImageDimension, GetSize. simpl. lia. }
  assert (positive_sizes region) as Hpos.
  { unfold positive_sizes. simpl. repeat constructor; lia. }
  destruct (split_is_partition region Samples.even_split (fun _ => Samples.even_split)
              Hwf Hrange even_split_valid (fun _ => even_split_valid) Hsome)
    as [_ Hrec].
  destruct (Hrec Hpos 5%nat ltac:(simpl; lia)) as (leaves & E & _ & Hlen & Hhold).
  exists leaves. split_and!.
  - exact E.
  - exact Hlen.
  - exact (Hhold [1; 11]).
  - exact (Hhold [2; 11]).
Defined.

(** C2 as it was stated fails where the machine types wrap. When the two
    components of the ratio sum to more than the size type holds, the
    divisor wraps to 1, the cut is not clamped, and the constructed half
    reaches beyond the region. When the region reaches beyond the index
    type, the index of the second half wraps and the half lies elsewhere.
    And a region with a dimension of size 0 has no element, yet it is
    split into leaves as long as another dimension is divisible. *)
Lemma split_is_partition_counterexample :
  (let region := Samples.line 0 3 in
   let p := Samples.wrapping_sum in
   Region.wf region /\ 1 < GetSize region 0 /\
   1 <= my_left p /\ 1 <= my_right p /\
   proportional_split_constructor region p
   = Returned {| constructed := Samples.line 0 6;
                 argument := Samples.line 6 (2 ^ 64 - 3) |} /\
   IsInside (Samples.line 0 6) [4] = true /\
   IsInside region [4] = false)
  /\
  (let region := Samples.line (2 ^ 63 - 2) 4 in
   Region.wf region /\ 1 < GetSize region 0 /\
   proportional_split_constructor region Samples.even_split
   = Returned {| constructed := Samples.line (2 ^ 63 - 2) 2;
                 argument := Samples.line (- 2 ^ 63) 2 |} /\
   IsInside region [2 ^ 63] = true /\
   IsInside (Samples.line (2 ^ 63 - 2) 2) [2 ^ 63] = false /\
   IsInside (Samples.line (- 2 ^ 63) 2) [2 ^ 63] = false)
  /\
  (let region := Samples.plane 0 0 0 2 in
   Region.wf region /\ 1 < GetSize region 1 /\
   split_recursively 5 (fun _ => Samples.even_split) region
   = Some (Returned [Samples.plane 0 0 0 1; Samples.plane 0 0 1 1]) /\
   GetNumberOfPixels region = 0).
Proof.
  split; [|split]; cbv zeta.
  - split; [apply line_wf; [apply small_is_index | apply small_is_size]; lia|].
    split_and!; vm_compute; first [reflexivity | discriminate].
  - split.
    { apply line_wf; [|apply small_is_size; lia].
      unfold is_IndexValueType, IndexValueType_min, IndexValueType_max. lia. }
    split_and!; vm_compute; first [reflexivity | discriminate].
  - split; [apply plane_wf; first [apply small_is_index | apply small_is_size]; lia|].
    split_and!; vm_compute; first [reflexivity | discriminate].
Qed.

(** C3, as amended. For a well-formed region, the dimension [d] the
    constructor chooses (size above 1) and a ratio with both components at
    least 1, provided [size[d] * right] and [left + right] fit the size
    type: the cut is the floor of [size[d] * right / (left + right)]
    brought into [[1, size[d] - 1]]; the constructed half gets the cut, the
    other half the rest, and neither is 0. *)
Theorem split_point_is_clamped_floor (region : TBBImageRegionSplitter)
    (p : proportional_split) (d : nat) :
  Region.wf region -> valid_ratio p -> chosen_dimension region d ->
  GetSize region d * my_right p < SizeValueType_modulus ->
  exists halves,
    proportional_split_constructor region p = Returned halves /\
    GetSize (constructed halves) d = described_cut (GetSize region d) p /\
    GetSize (argument halves) d
    = GetSize region d - described_cut (GetSize region d) p /\
    1 <= described_cut (GetSize region d) p <= GetSize region d - 1.
Proof.
  intros Hwf Hp Hd Hprod.
  pose proof (chosen_size region d Hd) as Hs.
  pose proof (chosen_size_bounds region d Hwf Hd) as Hb.
  pose proof (cut_bounds region p d Hwf Hp Hd) as Hc.
  rewrite (split_point_exact p Hp) in Hc by (lia || assumption).
  eexists. split; [apply (constructor_returns region p d); assumption|].
  simpl. rewrite (split_point_exact p Hp) by (lia || assumption).
  apply lookup_lt_Some in Hs.
  split_and!; try lia.
  - apply GetSize_SetSize. exact Hs.
  - unfold GetSize at 1. simpl. rewrite list_lookup_insert_eq by exact Hs. reflexivity.
Qed.

(** Size 10 with ratio (1, 1): halves of sizes 5 and 5. *)
Lemma split_point_is_clamped_floor_witness :
  exists halves,
    proportional_split_constructor (Samples.line 0 10) Samples.even_split
    = Returned halves /\
    GetSize (constructed halves) 0 = 5 /\ GetSize (argument halves) 0 = 5.
Proof.
  destruct (split_point_is_clamped_floor (Samples.line 0 10) Samples.even_split 0)
    as (halves & E & Hc & Ha & _).
  - apply line_wf; [apply small_is_index | apply small_is_size]; lia.
  - exact even_split_valid.
  - apply line_chosen. lia.
  - vm_compute. reflexivity.
  - exists halves. split_and!; [exact E | exact Hc | exact Ha].
Defined.

(** C3 as it was stated fails where the size type wraps. With size 2^63
    and ratio (1, 2) the product is 0 in [size_t], so the cut is 1 and not
    the clamped floor 6148914691236517205; with size 3 and ratio
    (2^64 - 1, 2) the divisor is 1 in [size_t], so the cut is 6, outside
    [[1, 2]]. *)
Lemma split_point_is_clamped_floor_counterexample :
  (let region := Samples.line 0 (2 ^ 63) in
   let p := Samples.one_to_two in
   Region.wf region /\ chosen_dimension region 0 /\
   1 <= my_left p /\ 1 <= my_right p /\
   proportional_split_constructor region p
   = Returned {| constructed := Samples.line 0 1;
                 argument := Samples.line 1 (2 ^ 63 - 1) |} /\
   described_cut (GetSize region 0) p = 6148914691236517205)
  /\
  (let region := Samples.line 0 3 in
   let p := Samples.wrapping_sum in
   Region.wf region /\ chosen_dimension region 0 /\
   1 <= my_left p /\ 1 <= my_right p /\
   proportional_split_constructor region p
   = Returned {| constructed := Samples.line 0 6;
                 argument := Samples.line 6 (2 ^ 64 - 3) |} /\
   described_cut (GetSize region 0) p = 1).
Proof.
  split; cbv zeta; split_and!.
  - apply line_wf; [apply small_is_index; lia|].
    unfold is_SizeValueType, SizeValueType_modulus. lia.
  - apply line_chosen. lia.
  - vm_compute. discriminate.
  - vm_compute. discriminate.
  - vm_compute. reflexivity.
  - vm_compute. reflexivity.
  - apply line_wf; [apply small_is_index | apply small_is_size]; lia.
  - apply line_chosen. lia.
  - vm_compute. discriminate.
  - vm_compute. discriminate.
  - vm_compute. reflexivity.
  - vm_compute. reflexivity.
Qed.

(** C4, as amended. For a well-formed region within the index type and a
    ratio with components at least 1 whose sum fits the size type, a split
    that returns has picked the highest dimension [d] with size above 1;
    with [cut] the split point computed for it, the constructed splitter
    (the new one, [*this]) has [size[d] = cut] and the original [index[d]];
    the splitter that was passed in ([region], updated in place) has
    [size[d] = original size[d] - cut] and [index[d] = original index[d] +
    cut]; every other dimension of index and size, and the dimension
    count, are the original's in both. *)
Theorem split_halves_assignment (region : TBBImageRegionSplitter)
    (p : proportional_split) (halves : SplitResult) :
  Region.wf region -> in_index_range region -> valid_ratio p ->
  proportional_split_constructor region p = Returned halves ->
  exists d,
    chosen_dimension region d /\
    let cut := split_point (GetSize region d) p in
    GetSize (constructed halves) d = cut /\
    GetIndex (constructed halves) d = GetIndex region d /\
    GetSize (argument halves) d = GetSize region d - cut /\
    GetIndex (argument halves) d = GetIndex region d + cut /\
    (forall d', d' <> d ->
       GetSize (constructed halves) d' = GetSize region d' /\
       GetIndex (constructed halves) d' = GetIndex region d' /\
       GetSize (argument halves) d' = GetSize region d' /\
       GetIndex (argument halves) d' = GetIndex region d') /\
    GetImageDimension (constructed halves) = GetImageDimension region /\
    GetImageDimension (argument halves) = GetImageDimension region.
Proof.
  intros Hwf Hrange Hp Hsplit.
  destruct (constructor_cases region p) as [[E _]|(d & Hd & _)]; [congruence|].
  exists d. split; [exact Hd|].
  rewrite (constructor_returns_exact region p d Hwf Hp Hd Hrange) in Hsplit.
  injection Hsplit as <-. cbv zeta. simpl.
  pose proof (chosen_size region d Hd) as Hs. apply lookup_lt_Some in Hs.
  pose proof (chosen_index region d Hwf Hd) as Hi. apply lookup_lt_Some in Hi.
  split_and!.
  - apply GetSize_SetSize. exact Hs.
  - reflexivity.
  - unfold GetSize at 1. simpl. rewrite list_lookup_insert_eq by exact Hs. reflexivity.
  - apply GetIndex_SetIndex. simpl. exact Hi.
  - intros d' Hne. split_and!.
    + apply GetSize_SetSize_other. exact Hne.
    + reflexivity.
    + unfold GetSize at 1. simpl. rewrite list_lookup_insert_ne by congruence. reflexivity.
    + rewrite GetIndex_SetIndex_other by exact Hne. reflexivity.
  - reflexivity.
  - reflexivity.
Qed.

Lemma split_halves_assignment_witness :
  let region := Samples.line 0 10 in
  let halves :=
    {| constructed := Samples.line 0 7; argument := Samples.line 7 3 |} in
  exists d,
    chosen_dimension region d /\
    GetSize (constructed halves) d = split_point (GetSize region d) Samples.one_to_three /\
    GetSize (argument halves) d
    = GetSize region d - split_point (GetSize region d) Samples.one_to_three.
Proof.
  intros region halves.
  destruct (split_halves_assignment region Samples.one_to_three halves)
    as (d & Hd & Hc & _ & Ha & _).
  - apply line_wf; [apply small_is_index | apply small_is_size]; lia.
  - apply line_in_range. unfold IndexValueType_max. lia.
  - exact one_to_three_valid.
  - reflexivity.
  - exists d. split_and!; [exact Hd | exact Hc | exact Ha].
Defined.

(** C4 as it was stated gives the halves to the wrong splitters: with
    index 0, size 10 and ratio (1, 3) the cut is 7, and it is the
    constructed (new) splitter that has size 7 at index 0, while the one
    passed in is left with size 3 at index 7. Nor are the difference and
    the sum exact where the types wrap: with size 3 and ratio
    (2^64 - 1, 2) the cut is 6 and the size left in the argument is
    2^64 - 3, not 3 - 6; with index 2^63 - 2, size 4 and ratio (1, 1) the
    cut is 2 and the index left in the argument is -2^63, not 2^63. *)
Lemma split_halves_assignment_counterexample :
  (let region := Samples.line 0 10 in
   let p := Samples.one_to_three in
   split_point (GetSize region 0) p = 7 /\
   proportional_split_constructor region p
   = Returned {| constructed := Samples.line 0 7; argument := Samples.line 7 3 |} /\
   GetSize (Samples.line 0 7) 0 <> GetSize region 0 - 7 /\
   GetIndex (Samples.line 0 7) 0 <> GetIndex region 0 + 7 /\
   GetSize (Samples.line 7 3) 0 <> 7 /\
   GetIndex (Samples.line 7 3) 0 <> GetIndex region 0)
  /\
  (let region := Samples.line 0 3 in
   let p := Samples.wrapping_sum in
   split_point (GetSize region 0) p = 6 /\
   proportional_split_constructor region p
   = Returned {| constructed := Samples.line 0 6;
                 argument := Samples.line 6 (2 ^ 64 - 3) |} /\
   GetSize (Samples.line 6 (2 ^ 64 - 3)) 0 <> GetSize region 0 - 6)
  /\
  (let region := Samples.line (2 ^ 63 - 2) 4 in
   let p := Samples.even_split in
   split_point (GetSize region 0) p = 2 /\
   proportional_split_constructor region p
   = Returned {| constructed := Samples.line (2 ^ 63 - 2) 2;
                 argument := Samples.line (- 2 ^ 63) 2 |} /\
   GetIndex (Samples.line (- 2 ^ 63) 2) 0 <> GetIndex region 0 + 2).
Proof.
  split; [|split]; cbv zeta; split_and!; vm_compute;
    first [reflexivity | discriminate].
Qed.

(** C5. For every region in which no dimension has a size above 1, and
    whatever the ratio, the splitting constructor does not return: it
    throws the "could not be split" exception. *)
Theorem unsplittable_region_throws (region : TBBImageRegionSplitter)
    (p : proportional_split) :
  (forall d, (d < GetImageDimension region)%nat -> GetSize region d <= 1) ->
  proportional_split_constructor region p = Thrown RegionCouldNotBeSplit.
Proof.
  intros Hall.
  destruct (constructor_cases region p) as [[E _]|(d & (Hd & Hgt & _) & _)].
  - exact E.
  - specialize (Hall d Hd). lia.
Qed.

Lemma unsplittable_region_throws_witness :
  proportional_split_constructor (Samples.plane 4 1 7 1) Samples.one_to_three
  = Thrown RegionCouldNotBeSplit
  /\ proportional_split_constructor (Samples.plane 4 0 7 1) Samples.even_split
     = Thrown RegionCouldNotBeSplit.
Proof.
  split; apply unsplittable_region_throws;
    intros [|[|d]] Hd; unfold GetSize, GetImageDimension in *; simpl in *; lia.
Defined.

(** C9, as amended. [is_divisible()] is true exactly when some dimension
    has a size above 1 and [empty()] exactly when some dimension has size
    0; a region with all sizes 1 is neither; and an empty region is
    indivisible exactly when none of its sizes is above 1. *)
Theorem divisible_and_empty (region : TBBImageRegionSplitter) :
  (is_divisible region = true
   <-> exists d, (d < GetImageDimension region)%nat /\ 1 < GetSize region d) /\
  (empty region = true
   <-> exists d, (d < GetImageDimension region)%nat /\ GetSize region d = 0) /\
  ((forall d, (d < GetImageDimension region)%nat -> GetSize region d = 1) ->
   is_divisible region = false /\ empty region = false) /\
  (empty region = true ->
   (is_divisible region = false
    <-> forall d, (d < GetImageDimension region)%nat -> GetSize region d <= 1)).
Proof.
  split_and!.
  - apply is_divisible_true.
  - apply empty_true.
  - intros Hones. split.
    + apply is_divisible_false. intros d Hd. rewrite (Hones d Hd). lia.
    + apply not_true_iff_false. rewrite empty_true. intros (d & Hd & H0).
      rewrite (Hones d Hd) in H0. lia.
  - intros _. apply is_divisible_false.
Qed.

Lemma divisible_and_empty_witness :
  (is_divisible (Samples.plane 0 1 0 1) = false /\ empty (Samples.plane 0 1 0 1) = false)
  /\ is_divisible (Samples.plane 0 0 0 1) = false.
Proof.
  split.
  - apply (divisible_and_empty (Samples.plane 0 1 0 1)).
    intros [|[|d]] Hd; unfold GetSize, GetImageDimension in *; simpl in *; lia.
  - apply (divisible_and_empty (Samples.plane 0 0 0 1)); [reflexivity|].
    intros [|[|d]] Hd; unfold GetSize, GetImageDimension in *; simpl in *; lia.
Defined.

(** C9 as it was stated fails for a region with sizes 0 and 5: it is
    empty, and it is divisible. *)
Lemma divisible_and_empty_counterexample :
  empty (Samples.plane 0 0 0 5) = true /\ is_divisible (Samples.plane 0 0 0 5) = true.
Proof. split; reflexivity. Qed.

(** ** The partitioners *)

Section Partitioners.

Lemma simple_partition_not_nil fuel r : simple_partition fuel r <> [].
Proof.
  revert r. induction fuel as [|fuel IH]; intros r; simpl; [discriminate|].
  destruct (range_is_divisible r); [|discriminate].
  intros H. apply app_eq_nil in H as [H _]. exact (IH _ H).
Qed.

(** With grain size 1 the leaves are the units of the range, in
    ascending order. *)
Lemma simple_partition_units fuel r :
  my_grainsize r = 1 -> my_begin r < my_end r ->
  (Z.to_nat (range_size r) <= fuel)%nat ->
  my_begin <$> simple_partition fuel r = seqZ (my_begin r) (range_size r).
Proof.
  revert r. induction fuel as [|fuel IH]; intros [b e g]; unfold range_size;
    simpl; intros -> Hlt Hfuel; [lia|].
  unfold range_is_divisible, range_size. simpl.
  destruct (Z.ltb_spec 1 (e - b)) as [Hdiv|Hunit].
  - assert (1 <= (e - b) / 2 < e - b) as Hhalf.
    { split; [apply Z.div_le_lower_bound; lia | apply Z.div_lt_upper_bound; lia]. }
    rewrite fmap_app.
    rewrite !IH by (unfold range_size; simpl; lia).
    unfold range_size. simpl.
    generalize dependent ((e - b) / 2). intros h Hhalf.
    transitivity (seqZ b ((b + h - b) + (e - (b + h)))); [|f_equal; lia].
    rewrite seqZ_app by lia. f_equal. f_equal. lia.
  - simpl. replace (e - b) with 1 by lia. reflexivity.
Qed.

Lemma divisible_split_returns (range : TBBImageRegionSplitter) p :
  valid_ratio p -> is_divisible range = true ->
  exists halves, proportional_split_constructor range p = Returned halves.
Proof.
  intros Hp Hdiv.
  destruct (constructor_cases range p) as [[_ Hall]|(d & _ & ->)].
  - apply is_divisible_false in Hall. congruence.
  - unfold split_along. rewrite (divisor_not_zero p Hp). eexists. reflexivity.
Qed.

Lemma auto_partition_returns plan (range : TBBImageRegionSplitter) :
  valid_plan plan ->
  exists leaf leaves, auto_partition plan range = Returned (leaf :: leaves).
Proof.
  revert range. induction plan as [|p l IHl r IHr]; intros range Hplan; simpl.
  - eexists _, _. reflexivity.
  - destruct Hplan as (Hp & Hl & Hr).
    destruct (is_divisible range) eqn:Hdiv; [|eexists _, _; reflexivity].
    destruct (divisible_split_returns range p Hp Hdiv) as [halves ->].
    destruct (IHl (constructed halves) Hl) as (leaf1 & leaves1 & ->).
    destruct (IHr (argument halves) Hr) as (leaf2 & leaves2 & ->).
    eexists _, _. simpl. reflexivity.
Qed.

End Partitioners.

(** ** The task loop *)

Section TaskLoop.

Context {R : Type}.
Variables (sch : Scheduler) (f : Functor) (filter : option ProcessObject).
Variables (call : R -> Event) (advance : Z -> R -> Z) (total : Z).
Hypothesis call_is_call : forall r, is_call (call r) = true.

Let body := polled_task f filter call advance total.

Lemma calls_app t1 t2 : calls (t1 ++ t2) = calls t1 ++ calls t2.
Proof. apply filter_app. Qed.

Lemma calls_call t r : calls (t ++ [call r]) = calls t ++ [call r].
Proof.
  rewrite calls_app. f_equal. unfold calls.
  rewrite filter_cons, filter_nil. rewrite decide_True by apply call_is_call.
  reflexivity.
Qed.

Lemma calls_progress t n d : calls (t ++ [UpdateProgress n d]) = calls t.
Proof. rewrite calls_app. simpl. apply app_nil_r. Qed.

Lemma task_returned oc progress r w progress' w' :
  body oc progress r w = (Returned progress', w') ->
  f = UserFunction /\ calls (trace w') = calls (trace w) ++ [call r].
Proof.
  unfold body, polled_task, bind, poll, invoke, when, emit, throw, ret.
  destruct filter as [fl|], f, oc; simpl;
    try destruct (AbortGenerateData fl (polls w)); simpl;
    intros H; simplify_eq; simpl;
    rewrite ?calls_progress, ?calls_call; auto.
Qed.

Lemma task_thrown oc progress r w e w' :
  body oc progress r w = (Thrown e, w') ->
  calls (trace w') = calls (trace w) /\
  (e = ProcessAborted (aborted_description filter) \/
   e = bad_function_call /\ f = EmptyFunctor).
Proof.
  unfold body, polled_task, bind, poll, invoke, when, emit, throw, ret.
  destruct filter as [fl|], f, oc; simpl;
    try destruct (AbortGenerateData fl (polls w)); simpl;
    intros H; simplify_eq; simpl; auto.
Qed.

Lemma task_quiet oc progress r w :
  never_aborts filter -> f = UserFunction ->
  exists progress' w', body oc progress r w = (Returned progress', w').
Proof.
  unfold body, polled_task, bind, poll, invoke, when, emit, throw, ret.
  intros Hquiet ->.
  destruct filter as [fl|], oc; simpl in *; rewrite ?Hquiet; simpl;
    eexists _, _; reflexivity.
Qed.

Lemma task_aborted fl oc progress r w :
  filter = Some fl -> AbortGenerateData fl (polls w) = true ->
  body oc progress r w
  = (Thrown (ProcessAborted (aborted_description filter)),
     {| trace := trace w; polls := S (polls w) |}).
Proof.
  unfold body, polled_task, bind, poll, invoke, when, emit, throw, ret.
  intros -> Habort. simpl. rewrite Habort. reflexivity.
Qed.

Lemma loop_returned tasks k progress w w' :
  run_tasks sch body k progress tasks w = (Returned tt, w') ->
  calls (trace w') = calls (trace w) ++ (call <$> tasks).
Proof.
  revert k progress w. induction tasks as [|r tasks IH]; intros k progress w; simpl.
  - unfold ret. intros H. simplify_eq. rewrite app_nil_r. reflexivity.
  - unfold bind at 1.
    destruct (body (on_calling_thread sch k) progress r w) as [[progress1|e] w1] eqn:E;
      [|discriminate].
    intros H. apply IH in H. rewrite H.
    apply task_returned in E as [_ ->]. rewrite <- app_assoc. reflexivity.
Qed.

Lemma loop_outcome tasks k progress w out w' :
  run_tasks sch body k progress tasks w = (out, w') ->
  out = Returned tt \/
  out = Thrown (ProcessAborted (aborted_description filter)) \/
  out = Thrown bad_function_call /\ f = EmptyFunctor.
Proof.
  revert k progress w. induction tasks as [|r tasks IH]; intros k progress w; simpl.
  - unfold ret. intros H. simplify_eq. left. reflexivity.
  - unfold bind at 1.
    destruct (body (on_calling_thread sch k) progress r w) as [[progress1|e] w1] eqn:E.
    + apply IH.
    + intros H. simplify_eq.
      apply task_thrown in E as [_ [->|[-> ->]]]; auto.
Qed.

Lemma loop_empty_functor tasks k progress w :
  f = EmptyFunctor ->
  calls (trace (run_tasks sch body k progress tasks w).2) = calls (trace w).
Proof.
  intros Hf. destruct tasks as [|r tasks]; simpl; [reflexivity|].
  unfold bind at 1.
  destruct (body (on_calling_thread sch k) progress r w) as [[progress1|e] w1] eqn:E.
  - apply task_returned in E as [Hu _]. congruence.
  - apply task_thrown in E as [E _]. exact E.
Qed.

Lemma loop_quiet tasks k progress w :
  never_aborts filter -> f = UserFunction ->
  exists w', run_tasks sch body k progress tasks w = (Returned tt, w').
Proof.
  intros Hquiet Hf. revert k progress w.
  induction tasks as [|r tasks IH]; intros k progress w; simpl.
  - eexists. reflexivity.
  - unfold bind at 1.
    destruct (task_quiet (on_calling_thread sch k) progress r w Hquiet Hf)
      as (progress1 & w1 & ->).
    apply IH.
Qed.

Lemma loop_aborted fl r tasks k progress w :
  filter = Some fl -> AbortGenerateData fl (polls w) = true ->
  run_tasks sch body k progress (r :: tasks) w
  = (Thrown (ProcessAborted (aborted_description filter)),
     {| trace := trace w; polls := S (polls w) |}).
Proof.
  intros Hfl Habort. simpl. unfold bind at 1.
  rewrite (task_aborted fl _ _ _ _ Hfl Habort). reflexivity.
Qed.

End TaskLoop.

(** ** The entry points *)

Section EntryPoints.

Variable sch : Scheduler.

Lemma array_task_polled aFunc filter count :
  array_task aFunc filter count
  = polled_task aFunc filter (fun r => ArrayCall (my_begin r))
      (fun progress _ => to_SizeValueType (progress + 1)) count.
Proof. reflexivity. Qed.

Lemma region_task_polled funcP filter totalCount :
  region_task funcP filter totalCount
  = polled_task funcP filter (fun r => RegionCall (m_Index r) (m_Size r))
      (fun progress r => to_SizeValueType (progress + GetNumberOfPixels r))
      totalCount.
Proof. reflexivity. Qed.

Lemma report_end_runs filter w :
  report_end filter w
  = match filter with
    | None => (Returned tt, w)
    | Some f =>
        (if AbortGenerateData f (polls w)
         then Thrown (ProcessAborted (aborted_description filter))
         else Returned tt,
         {| trace := trace w ++ [UpdateProgress 1 1]; polls := S (polls w) |})
    end.
Proof.
  destruct filter as [f|]; [|reflexivity].
  unfold report_end, bind, emit, poll, throw, ret. simpl.
  destruct (AbortGenerateData f (polls w)); reflexivity.
Qed.

Lemma report_end_calls filter w :
  calls (trace (report_end filter w).2) = calls (trace w).
Proof.
  rewrite report_end_runs. destruct filter; simpl; [|reflexivity].
  rewrite calls_app. apply app_nil_r.
Qed.

(** The tasks of a flat range of at least one element are its units, in
    the scheduler's order. *)
Lemma unit_tasks first last :
  first < last ->
  my_begin
    <$> order sch _
          (simple_partition (Z.to_nat (last - first))
             {| my_begin := first; my_end := last; my_grainsize := 1 |})
  ≡ₚ seqZ first (last - first).
Proof.
  intros Hlt.
  rewrite (order_permutation sch).
  rewrite simple_partition_units; [reflexivity|reflexivity|exact Hlt|].
  unfold range_size. simpl. lia.
Qed.

Lemma emit_loop (ev : blocked_range -> Event) tasks k w :
  run_tasks sch (fun (_ : bool) (_ : unit) r => emit (ev r)) k tt tasks w
  = (Returned tt, {| trace := trace w ++ (ev <$> tasks); polls := polls w |}).
Proof.
  revert k w. induction tasks as [|r tasks IH]; intros k w; simpl.
  - rewrite app_nil_r. destruct w. reflexivity.
  - unfold bind at 1. unfold emit at 1. rewrite IH. simpl.
    rewrite <- app_assoc. reflexivity.
Qed.

Lemma parallel_array_returned first last filter count w w' :
  first < last ->
  parallel_for_simple sch
    {| my_begin := first; my_end := last; my_grainsize := 1 |}
    (array_task UserFunction filter count) 0 w = (Returned tt, w') ->
  calls (trace w') ≡ₚ calls (trace w) ++ (ArrayCall <$> seqZ first (last - first)).
Proof.
  intros Hlt. unfold parallel_for_simple, range_empty, range_size. simpl.
  destruct (Z.ltb_spec first last); [simpl|lia].
  rewrite array_task_polled. intros Hrun.
  apply loop_returned in Hrun; [|reflexivity]. rewrite Hrun.
  apply Permutation_app_head.
  rewrite <- (unit_tasks first last Hlt), <- list_fmap_compose. reflexivity.
Qed.

Lemma parallel_array_quiet first last filter count w :
  never_aborts filter ->
  exists w',
    parallel_for_simple sch
      {| my_begin := first; my_end := last; my_grainsize := 1 |}
      (array_task UserFunction filter count) 0 w = (Returned tt, w').
Proof.
  intros Hquiet. unfold parallel_for_simple.
  destruct (range_empty _); [eexists; reflexivity|].
  rewrite array_task_polled. apply loop_quiet; [exact Hquiet|reflexivity].
Qed.

Lemma parallel_array_aborted first last aFunc f count w :
  AbortGenerateData f (polls w) = true ->
  first < last ->
  parallel_for_simple sch
    {| my_begin := first; my_end := last; my_grainsize := 1 |}
    (array_task aFunc (Some f) count) 0 w
  = (Thrown (ProcessAborted (aborted_description (Some f))),
     {| trace := trace w; polls := S (polls w) |}).
Proof.
  intros Habort Hlt. unfold parallel_for_simple, range_empty. simpl.
  destruct (Z.ltb_spec first last); [simpl|lia].
  destruct (order sch _ _) as [|r tasks] eqn:E.
  - apply (f_equal length) in E.
    rewrite (Permutation_length (order_permutation sch _ _)) in E.
    apply length_zero_iff_nil in E.
    exfalso. exact (simple_partition_not_nil _ _ E).
  - rewrite array_task_polled. eapply loop_aborted; [reflexivity|exact Habort].
Qed.

End EntryPoints.

Section Unfolding.

Variable sch : Scheduler.

Lemma opened_calls filter : calls (trace (opened filter)) = [].
Proof. destruct filter; reflexivity. Qed.

Lemma ParallelizeArray_runs firstIndex lastIndexPlus1 aFunc filter :
  run (ParallelizeArray sch firstIndex lastIndexPlus1 aFunc filter)
  = match
      (if to_SizeValueType (firstIndex + 1) <? lastIndexPlus1 then
         parallel_for_simple sch
           {| my_begin := firstIndex; my_end := lastIndexPlus1; my_grainsize := 1 |}
           (array_task aFunc filter
              (to_unsigned (to_SizeValueType (lastIndexPlus1 - firstIndex)))) 0
       else if to_SizeValueType (firstIndex + 1) =? lastIndexPlus1 then
         invoke aFunc (ArrayCall firstIndex)
       else ret tt) (opened filter)
    with
    | (Returned _, w) => report_end filter w
    | (Thrown e, w) => (Thrown e, w)
    end.
Proof. destruct filter; reflexivity. Qed.

Lemma ParallelizeImageRegion_runs self dimension index size funcP filter :
  run (ParallelizeImageRegion sch self dimension index size funcP filter)
  = match
      (if m_NumberOfThreads self =? 1 then
         invoke funcP (RegionCall index size)
       else
         parallel_for_auto sch (region_of dimension index size)
           (region_task funcP filter
              (GetNumberOfPixels (region_of dimension index size))) 0)
        (opened filter)
    with
    | (Returned _, w) => report_end filter w
    | (Thrown e, w) => (Thrown e, w)
    end.
Proof. destruct filter; reflexivity. Qed.

Lemma successor_differs z : (to_SizeValueType (z + 1) =? z) = false.
Proof.
  apply Z.eqb_neq. unfold to_SizeValueType, SizeValueType_modulus.
  rewrite Z.mod_eq by lia. lia.
Qed.

Lemma nonempty_order {A} (x : A) (l : list A) :
  exists y l', order sch A (x :: l) = y :: l'.
Proof.
  destruct (order sch A (x :: l)) as [|y l'] eqn:E; [|eexists _, _; reflexivity].
  apply (f_equal length) in E.
  rewrite (Permutation_length (order_permutation sch _ _)) in E. discriminate.
Qed.

End Unfolding.

(** ** The claims about the entry points *)

(** C8, as amended. On an empty range ([firstIndex == lastIndexPlus1])
    [ParallelizeArray] never calls the work function, whatever it is. It
    returns normally when no filter is given or the filter's abort flag is
    not set at the closing check; when the flag is set there, it throws
    [ProcessAborted]. *)
Theorem empty_range_outcome (sch : Scheduler) (firstIndex : Z) (aFunc : Functor)
    (filter : option ProcessObject) :
  let result := run (ParallelizeArray sch firstIndex firstIndex aFunc filter) in
  calls (trace result.2) = [] /\
  result.1
  = match filter with
    | None => Returned tt
    | Some f =>
        if AbortGenerateData f 0
        then Thrown (ProcessAborted (aborted_description filter))
        else Returned tt
    end.
Proof.
  cbv zeta. rewrite ParallelizeArray_runs.
  rewrite successor_differs.
  assert (parallel_for_simple sch
            {| my_begin := firstIndex; my_end := firstIndex; my_grainsize := 1 |}
            (array_task aFunc filter
               (to_unsigned (to_SizeValueType (firstIndex - firstIndex)))) 0
            (opened filter)
          = (Returned tt, opened filter)) as Hnone.
  { unfold parallel_for_simple, range_empty. simpl.
    rewrite Z.ltb_irrefl. reflexivity. }
  destruct (to_SizeValueType (firstIndex + 1) <? firstIndex);
    [rewrite Hnone | unfold ret].
  all: split; [rewrite report_end_calls; apply opened_calls|].
  all: rewrite report_end_runs; destruct filter; reflexivity.
Qed.

(** C8 as it was stated fails when a filter is given whose abort flag is
    set: the closing check throws, also on an empty range. *)
Lemma empty_range_outcome_counterexample :
  run (ParallelizeArray Samples.in_order 3 3 UserFunction (Some Samples.aborting))
  = (Thrown
       (ProcessAborted
          "AbortGenerateData was called in MedianImageFilter during multi-threaded part of filter execution"),
     {| trace := [UpdateProgress 0 1; UpdateProgress 1 1]; polls := 1 |}).
Proof. reflexivity. Qed.

Lemma parallel_array_empty {St} sch first last
    (body : bool -> St -> blocked_range -> Exec St) shared w :
  last <= first ->
  parallel_for_simple sch
    {| my_begin := first; my_end := last; my_grainsize := 1 |} body shared w
  = (Returned tt, w).
Proof.
  intros Hle. unfold parallel_for_simple, range_empty. simpl.
  destruct (Z.ltb_spec first last); [lia|]. reflexivity.
Qed.

Section RegionDispatch.

Variable sch : Scheduler.

Lemma parallel_region_aborted (range : TBBImageRegionSplitter) funcP f total w :
  AbortGenerateData f (polls w) = true ->
  exists w',
    parallel_for_auto sch range (region_task funcP (Some f) total) 0 w
    = (if empty range then Returned tt
       else Thrown (ProcessAborted (aborted_description (Some f))), w') /\
    trace w' = trace w /\
    polls w' = if empty range then polls w else S (polls w).
Proof.
  intros Habort. unfold parallel_for_auto.
  destruct (empty range); [exists w; auto|].
  destruct (auto_partition_returns (plan sch) range (plan_valid sch))
    as (leaf & leaves & ->).
  destruct (nonempty_order sch leaf leaves) as (r & tasks & ->).
  rewrite region_task_polled.
  eexists. split; [eapply loop_aborted; [reflexivity|exact Habort]|].
  split; reflexivity.
Qed.

Lemma parallel_region_outcome (range : TBBImageRegionSplitter) funcP filter total w out w' :
  parallel_for_auto sch range (region_task funcP filter total) 0 w = (out, w') ->
  (out = Returned tt \/
   out = Thrown (ProcessAborted (aborted_description filter)) \/
   out = Thrown bad_function_call /\ funcP = EmptyFunctor) /\
  (funcP = EmptyFunctor \/ empty range = true -> calls (trace w') = calls (trace w)).
Proof.
  unfold parallel_for_auto.
  destruct (empty range).
  { unfold ret. intros H. simplify_eq. auto. }
  destruct (auto_partition_returns (plan sch) range (plan_valid sch))
    as (leaf & leaves & ->).
  rewrite region_task_polled. intros H. split.
  - eapply loop_outcome. exact H.
  - intros [Hf|?]; [|discriminate].
    apply (f_equal (fun x => calls (trace x.2))) in H. simpl in H. rewrite <- H.
    apply loop_empty_functor; [intros; reflexivity | exact Hf].
Qed.

End RegionDispatch.

(** C7, as amended. With a filter whose abort flag is already set at the
    first poll, [ParallelizeArray] and [ParallelizeImageRegion] throw
    [ProcessAborted]. No call of the work function is made on the
    dispatched paths (a range of another length than 1; a thread count
    other than 1). On the two direct paths the work function is called
    once, unpolled, before the closing check throws: on a range of
    exactly one element, and with a thread count of 1. *)
Theorem abort_before_start (sch : Scheduler) (self : TBBMultiThreader)
    (firstIndex lastIndexPlus1 : Z) (dimension : nat) (index size : list Z)
    (f : ProcessObject) :
  AbortGenerateData f 0 = true ->
  let array :=
    run (ParallelizeArray sch firstIndex lastIndexPlus1 UserFunction (Some f)) in
  let region :=
    run (ParallelizeImageRegion sch self dimension index size UserFunction (Some f)) in
  array.1 = Thrown (ProcessAborted (aborted_description (Some f))) /\
  calls (trace array.2)
  = (if to_SizeValueType (firstIndex + 1) =? lastIndexPlus1
     then [ArrayCall firstIndex] else []) /\
  region.1 = Thrown (ProcessAborted (aborted_description (Some f))) /\
  calls (trace region.2)
  = (if m_NumberOfThreads self =? 1 then [RegionCall index size] else []).
Proof.
  intros Habort. cbv zeta.
  rewrite ParallelizeArray_runs, ParallelizeImageRegion_runs.
  split_and!.
  - destruct (Z.ltb_spec (to_SizeValueType (firstIndex + 1)) lastIndexPlus1).
    + destruct (Z.lt_ge_cases firstIndex lastIndexPlus1).
      * rewrite parallel_array_aborted by assumption. reflexivity.
      * rewrite parallel_array_empty by lia.
        rewrite report_end_runs. simpl. rewrite Habort. reflexivity.
    + destruct (_ =? _); unfold invoke, emit, ret; simpl;
        rewrite report_end_runs; simpl; rewrite Habort; reflexivity.
  - destruct (Z.ltb_spec (to_SizeValueType (firstIndex + 1)) lastIndexPlus1) as [Hlt|Hge].
    + rewrite (proj2 (Z.eqb_neq _ _)) by lia.
      destruct (Z.lt_ge_cases firstIndex lastIndexPlus1).
      * rewrite parallel_array_aborted by assumption. reflexivity.
      * rewrite parallel_array_empty by lia.
        rewrite report_end_calls. reflexivity.
    + destruct (_ =? _); unfold invoke, emit, ret; simpl;
        rewrite report_end_calls; reflexivity.
  - destruct (m_NumberOfThreads self =? 1).
    + unfold invoke, emit. simpl.
      rewrite report_end_runs. simpl. rewrite Habort. reflexivity.
    + destruct (parallel_region_aborted sch (region_of dimension index size)
                  UserFunction f
                  (GetNumberOfPixels (region_of dimension index size))
                  (opened (Some f)) Habort) as (w' & -> & Ht & Hp).
      destruct (empty (region_of dimension index size)); [|reflexivity].
      rewrite report_end_runs. simpl. rewrite Hp. simpl. rewrite Habort. reflexivity.
  - destruct (m_NumberOfThreads self =? 1).
    + unfold invoke, emit. simpl. rewrite report_end_calls. reflexivity.
    + destruct (parallel_region_aborted sch (region_of dimension index size)
                  UserFunction f
                  (GetNumberOfPixels (region_of dimension index size))
                  (opened (Some f)) Habort) as (w' & -> & Ht & Hp).
      destruct (empty (region_of dimension index size)).
      * rewrite report_end_calls, Ht. reflexivity.
      * simpl. rewrite Ht. reflexivity.
Qed.

Lemma abort_before_start_witness :
  let array :=
    run (ParallelizeArray Samples.backwards 3 7 UserFunction (Some Samples.aborting)) in
  let region :=
    run (ParallelizeImageRegion Samples.in_order (Samples.threader 4 UserFunction)
           2 [0; 0] [4; 4] UserFunction (Some Samples.aborting)) in
  array.1 = Thrown (ProcessAborted (aborted_description (Some Samples.aborting))) /\
  calls (trace array.2) = [] /\
  region.1 = Thrown (ProcessAborted (aborted_description (Some Samples.aborting))) /\
  calls (trace region.2) = [].
Proof.
  exact (abort_before_start Samples.backwards (Samples.threader 4 UserFunction)
           3 7 2 [0; 0] [4; 4] Samples.aborting eq_refl).
Defined.

(** C7 as it was stated fails on the two direct paths: with the abort flag
    set from the start, a range of one element and a thread count of 1
    each see the work function called once. *)
Lemma abort_before_start_counterexample :
  calls (trace (run (ParallelizeArray Samples.in_order 3 4 UserFunction
                       (Some Samples.aborting))).2)
  = [ArrayCall 3]
  /\
  calls (trace (run (ParallelizeImageRegion Samples.in_order
                       (Samples.threader 1 UserFunction) 2 [0; 0] [4; 4]
                       UserFunction (Some Samples.aborting))).2)
  = [RegionCall [0; 0] [4; 4]].
Proof. split; reflexivity. Qed.

Section FlatDispatch.

Variable sch : Scheduler.

Lemma parallel_array_outcome range aFunc filter count w out w' :
  parallel_for_simple sch range (array_task aFunc filter count) 0 w = (out, w') ->
  (out = Returned tt \/
   out = Thrown (ProcessAborted (aborted_description filter)) \/
   out = Thrown bad_function_call /\ aFunc = EmptyFunctor) /\
  (aFunc = EmptyFunctor -> calls (trace w') = calls (trace w)).
Proof.
  unfold parallel_for_simple.
  destruct (range_empty range).
  { unfold ret. intros H. simplify_eq. auto. }
  rewrite array_task_polled. intros H. split.
  - eapply loop_outcome. exact H.
  - intros Hf.
    apply (f_equal (fun x => calls (trace x.2))) in H. simpl in H. rewrite <- H.
    apply loop_empty_functor; [intros; reflexivity | exact Hf].
Qed.

Lemma SingleMethodExecute_runs self :
  m_SingleMethod self = UserFunction ->
  1 <= m_NumberOfThreads self <= INT_MAX ->
  run (SingleMethodExecute sch self)
  = (Returned tt,
     {| trace :=
          (fun r =>
             SingleMethodCall (my_begin r) (m_NumberOfThreads self)
               (m_SingleData self))
          <$> order sch _
                (simple_partition (Z.to_nat (m_NumberOfThreads self))
                   {| my_begin := 0; my_end := m_NumberOfThreads self;
                      my_grainsize := 1 |});
        polls := 0 |}).
Proof.
  intros Hf HN. unfold run, SingleMethodExecute. rewrite Hf.
  rewrite to_int_id by lia.
  unfold parallel_for_simple, range_empty, range_size. simpl.
  destruct (Z.ltb_spec 0 (m_NumberOfThreads self)); [simpl|lia].
  rewrite Z.sub_0_r.
  exact (emit_loop sch _ _ 0%nat initial_world).
Qed.

End FlatDispatch.

Lemma quiet_report_end filter w :
  never_aborts filter -> (report_end filter w).1 = Returned tt.
Proof.
  intros Hquiet. rewrite report_end_runs.
  destruct filter as [f|]; [|reflexivity]. simpl in *. rewrite Hquiet. reflexivity.
Qed.

Lemma calls_only_calls (t : list Event) :
  Forall (fun ev => is_call ev = true) t -> calls t = t.
Proof.
  unfold calls. induction 1 as [|ev t Hev _ IH]; [reflexivity|].
  rewrite filter_cons, decide_True by exact Hev. rewrite IH. reflexivity.
Qed.

(** C1. [ParallelizeArray] over a range [[firstIndex, lastIndexPlus1)],
    whatever the scheduler does: when no abort is signalled the call
    returns, and a call that returns has called the work function exactly
    [lastIndexPlus1 - firstIndex] times, once for each index of the range.
    [SingleMethodExecute] with a method set and a thread count [N] from 1
    to [INT_MAX] (it ends a range of [int]) returns and has called the
    method exactly [N] times, once for each thread index of [[0, N)]. *)
Theorem every_index_exactly_once (sch : Scheduler) (self : TBBMultiThreader)
    (firstIndex lastIndexPlus1 : Z) (filter : option ProcessObject) :
  is_SizeValueType firstIndex -> is_SizeValueType lastIndexPlus1 ->
  firstIndex <= lastIndexPlus1 ->
  m_SingleMethod self = UserFunction ->
  1 <= m_NumberOfThreads self <= INT_MAX ->
  let array :=
    run (ParallelizeArray sch firstIndex lastIndexPlus1 UserFunction filter) in
  let single := run (SingleMethodExecute sch self) in
  (never_aborts filter -> array.1 = Returned tt) /\
  (array.1 = Returned tt ->
   Permutation (calls (trace array.2))
     (ArrayCall <$> seqZ firstIndex (lastIndexPlus1 - firstIndex)) /\
   Z.of_nat (length (calls (trace array.2))) = lastIndexPlus1 - firstIndex) /\
  single.1 = Returned tt /\
  (Permutation (calls (trace single.2))
     ((fun i => SingleMethodCall i (m_NumberOfThreads self) (m_SingleData self))
      <$> seqZ 0 (m_NumberOfThreads self)) /\
   Z.of_nat (length (calls (trace single.2))) = m_NumberOfThreads self).
Proof.
  intros Hfirst Hlast Hle Hf HN. cbv zeta.
  assert (forall (l1 l2 : list Event) n,
            Permutation l1 l2 -> Z.of_nat (length l2) = n ->
            Permutation l1 l2 /\ Z.of_nat (length l1) = n) as Hcount.
  { intros l1 l2 n Hp <-. split; [exact Hp|]. rewrite (Permutation_length Hp). reflexivity. }
  split; [|split; [|split]].
  - intros Hquiet. rewrite ParallelizeArray_runs.
    destruct (_ <? _).
    + destruct (parallel_array_quiet sch firstIndex lastIndexPlus1 filter
                  (to_unsigned (to_SizeValueType (lastIndexPlus1 - firstIndex)))
                  (opened filter) Hquiet) as [w' ->].
      apply quiet_report_end, Hquiet.
    + destruct (_ =? _); unfold invoke, emit, ret; simpl;
        apply quiet_report_end, Hquiet.
  - rewrite ParallelizeArray_runs. unfold is_SizeValueType in *.
    assert (forall n, n = lastIndexPlus1 - firstIndex ->
              Z.of_nat (length (ArrayCall <$> seqZ firstIndex n))
              = lastIndexPlus1 - firstIndex) as Hlen.
    { intros n ->. rewrite length_fmap, length_seqZ. lia. }
    destruct (decide (firstIndex + 1 = SizeValueType_modulus)) as [Hwrap|Hfit].
    + assert (lastIndexPlus1 = firstIndex) as -> by lia.
      replace (to_SizeValueType (firstIndex + 1)) with 0
        by (unfold to_SizeValueType; rewrite Hwrap, Z.mod_same;
            unfold SizeValueType_modulus; lia).
      unfold SizeValueType_modulus in *.
      destruct (Z.ltb_spec 0 firstIndex); [|lia].
      rewrite parallel_array_empty by lia.
      intros _. rewrite report_end_calls, (opened_calls filter).
      apply Hcount; [|apply Hlen; reflexivity].
      rewrite seqZ_nil by lia. reflexivity.
    + rewrite (to_SizeValueType_id (firstIndex + 1)) by (unfold is_SizeValueType; lia).
      destruct (Z.ltb_spec (firstIndex + 1) lastIndexPlus1) as [Hmany|Hfew].
      * destruct (parallel_for_simple _ _ _ _ _) as [[[]|e] w'] eqn:E; [|discriminate].
        intros _. rewrite report_end_calls.
        apply parallel_array_returned in E; [|lia].
        pose proof (opened_calls filter) as Hopened. rewrite Hopened in E.
        apply Hcount; [exact E | apply Hlen; reflexivity].
      * destruct (Z.eqb_spec (firstIndex + 1) lastIndexPlus1) as [Hone|Hnone];
          unfold invoke, emit, ret; cbv beta iota; intros _;
          rewrite report_end_calls; cbn [trace].
        -- rewrite calls_app, (opened_calls filter). simpl.
           apply Hcount; [|apply Hlen; reflexivity].
           replace (lastIndexPlus1 - firstIndex) with 1 by lia. reflexivity.
        -- rewrite (opened_calls filter).
           apply Hcount; [|apply Hlen; reflexivity].
           rewrite seqZ_nil by lia. reflexivity.
  - rewrite (SingleMethodExecute_runs sch self Hf HN). reflexivity.
  - rewrite (SingleMethodExecute_runs sch self Hf HN). simpl.
    apply (Hcount _ _ (m_NumberOfThreads self));
      [|rewrite length_fmap, length_seqZ; lia].
    rewrite calls_only_calls by (apply Forall_fmap, Forall_true; intros; reflexivity).
    pose proof (unit_tasks sch 0 (m_NumberOfThreads self) ltac:(lia)) as Hunits.
    rewrite Z.sub_0_r in Hunits.
    rewrite <- Hunits, <- list_fmap_compose. reflexivity.
Qed.

Lemma every_index_exactly_once_witness :
  let array :=
    run (ParallelizeArray Samples.backwards 3 7 UserFunction
           (Some Samples.never_aborting)) in
  let single :=
    run (SingleMethodExecute Samples.backwards (Samples.threader 4 UserFunction)) in
  array.1 = Returned tt /\
  Permutation (calls (trace array.2)) (ArrayCall <$> seqZ 3 4) /\
  single.1 = Returned tt /\
  Permutation (calls (trace single.2))
    ((fun i => SingleMethodCall i 4 0) <$> seqZ 0 4).
Proof.
  destruct (every_index_exactly_once Samples.backwards
              (Samples.threader 4 UserFunction) 3 7 (Some Samples.never_aborting))
    as (Hquiet & Harray & Hsingle & Hcalls & _).
  - apply small_is_size. lia.
  - apply small_is_size. lia.
  - lia.
  - reflexivity.
  - unfold INT_MAX. simpl. lia.
  - split_and!.
    + apply Hquiet. intros n. reflexivity.
    + apply Harray, Hquiet. intros n. reflexivity.
    + exact Hsingle.
    + exact Hcalls.
Defined.

Section MissingFunction.

Variable sch : Scheduler.

Lemma report_end_outcome filter w :
  (report_end filter w).1 = Returned tt \/
  (report_end filter w).1 = Thrown (ProcessAborted (aborted_description filter)).
Proof.
  rewrite report_end_runs. destruct filter as [f|]; simpl; [|auto].
  destruct (AbortGenerateData f (polls w)); auto.
Qed.

Lemma closing_outcome filter (branch : Outcome unit * World) :
  (branch.1 = Returned tt \/
   branch.1 = Thrown (ProcessAborted (aborted_description filter)) \/
   branch.1 = Thrown bad_function_call) ->
  calls (trace branch.2) = [] ->
  let result :=
    match branch with
    | (Returned _, w) => report_end filter w
    | (Thrown e, w) => (Thrown e, w)
    end in
  result.1 <> Thrown NoSingleMethodSet /\ calls (trace result.2) = [].
Proof.
  destruct branch as [[[]|e] w]; simpl; intros Hout Hcalls.
  - rewrite report_end_calls. split; [|exact Hcalls].
    destruct (report_end_outcome filter w) as [-> | ->]; discriminate.
  - split; [|exact Hcalls].
    destruct Hout as [?|[?|?]]; simplify_eq; discriminate.
Qed.

End MissingFunction.

(** C6, as amended. [SingleMethodExecute] with no method set throws "No
    single method set!" before anything is dispatched and without any
    call: the world is as it was. [ParallelizeArray] and
    [ParallelizeImageRegion] receive their work function as an argument
    and do not check it: given an empty one they never throw that error
    (and have nothing to call). *)
Theorem missing_function_outcome (sch : Scheduler) (self : TBBMultiThreader)
    (firstIndex lastIndexPlus1 : Z) (dimension : nat) (index size : list Z)
    (filter : option ProcessObject) :
  m_SingleMethod self = EmptyFunctor ->
  let array :=
    run (ParallelizeArray sch firstIndex lastIndexPlus1 EmptyFunctor filter) in
  let region :=
    run (ParallelizeImageRegion sch self dimension index size EmptyFunctor filter) in
  run (SingleMethodExecute sch self) = (Thrown NoSingleMethodSet, initial_world) /\
  (array.1 <> Thrown NoSingleMethodSet /\ calls (trace array.2) = []) /\
  (region.1 <> Thrown NoSingleMethodSet /\ calls (trace region.2) = []).
Proof.
  intros Hf. cbv zeta. split; [|split].
  - unfold run, SingleMethodExecute. rewrite Hf. reflexivity.
  - rewrite ParallelizeArray_runs. apply closing_outcome.
    + destruct (_ <? _).
      * destruct (parallel_for_simple _ _ _ _ _) as [out w'] eqn:E.
        apply parallel_array_outcome in E as [[?|[?|[? _]]] _]; simpl; auto.
      * destruct (_ =? _); simpl; auto.
    + destruct (_ <? _).
      * destruct (parallel_for_simple _ _ _ _ _) as [out w'] eqn:E.
        apply parallel_array_outcome in E as [_ E]. simpl.
        rewrite E by reflexivity. apply opened_calls.
      * destruct (_ =? _); simpl; apply opened_calls.
  - rewrite ParallelizeImageRegion_runs. apply closing_outcome.
    + destruct (_ =? _); [simpl; auto|].
      destruct (parallel_for_auto _ _ _ _ _) as [out w'] eqn:E.
      apply parallel_region_outcome in E as [[?|[?|[? _]]] _]; simpl; auto.
    + destruct (_ =? _); [simpl; apply opened_calls|].
      destruct (parallel_for_auto _ _ _ _ _) as [out w'] eqn:E.
      apply parallel_region_outcome in E as [_ E]. simpl.
      rewrite E by (left; reflexivity). apply opened_calls.
Qed.

Lemma missing_function_outcome_witness :
  run (SingleMethodExecute Samples.in_order (Samples.threader 4 EmptyFunctor))
  = (Thrown NoSingleMethodSet, initial_world).
Proof.
  exact (proj1 (missing_function_outcome Samples.in_order
                  (Samples.threader 4 EmptyFunctor) 0 0 0 [] [] None eq_refl)).
Defined.

(** C6 as it was stated fails for [ParallelizeArray]: without a work
    function and over an empty range it returns normally. *)
Lemma missing_function_outcome_counterexample :
  run (ParallelizeArray Samples.in_order 3 3 EmptyFunctor None)
  = (Returned tt, initial_world).
Proof. reflexivity. Qed.

(** ** The region built from the caller's arrays *)

Section RegionOf.

Variables (dimension : nat) (index size : list Z).
Hypothesis index_length : length index = dimension.
Hypothesis size_length : length size = dimension.

Lemma fill_step (l : list Z) k v :
  l !! k = Some v -> (k < dimension)%nat -> length l = dimension ->
  <[k := v]> (take k l ++ replicate (dimension - k) 0)
  = take (S k) l ++ replicate (dimension - S k) 0.
Proof.
  intros Hv Hk Hlen.
  rewrite insert_app_r_alt by (rewrite length_take; lia).
  rewrite length_take, Nat.min_l by lia. rewrite Nat.sub_diag.
  replace (dimension - k)%nat with (S (dimension - S k)) by lia.
  simpl. rewrite (take_S_r l k v Hv), <- app_assoc. reflexivity.
Qed.

Lemma region_of_prefix k :
  (k <= dimension)%nat ->
  foldl
    (fun region d =>
       SetSize (SetIndex region d (default 0 (index !! d))) d
         (default 0 (size !! d)))
    (Region.Build dimension) (seq 0 k)
  = {| m_ImageDimension := dimension;
       m_Index := take k index ++ replicate (dimension - k) 0;
       m_Size := take k size ++ replicate (dimension - k) 0 |}.
Proof.
  induction k as [|k IH]; intros Hk.
  - simpl. rewrite Nat.sub_0_r. reflexivity.
  - rewrite seq_S, foldl_app, IH by lia. simpl.
    destruct (lookup_lt_is_Some_2 index k ltac:(lia)) as [i Hi].
    destruct (lookup_lt_is_Some_2 size k ltac:(lia)) as [s Hs].
    rewrite Hi, Hs. unfold SetSize, SetIndex. simpl.
    rewrite (fill_step index k i Hi) by lia.
    rewrite (fill_step size k s Hs) by lia.
    reflexivity.
Qed.

Lemma region_of_arrays :
  region_of dimension index size
  = {| m_ImageDimension := dimension; m_Index := index; m_Size := size |}.
Proof.
  unfold region_of. rewrite region_of_prefix by lia.
  rewrite Nat.sub_diag. simpl. rewrite !app_nil_r.
  rewrite !take_ge by lia. reflexivity.
Qed.

End RegionOf.

(** C10, as amended. [ParallelizeImageRegion] on a region with a dimension
    of size 0: with a thread count of 1 the work function is called
    exactly once, with the caller's index and size arrays, although the
    region has no element; with any other thread count the empty region
    is never scheduled and the work function is not called. *)
Theorem empty_region_dispatch (sch : Scheduler) (self : TBBMultiThreader)
    (dimension : nat) (index size : list Z) (filter : option ProcessObject)
    (d : nat) :
  length index = dimension -> length size = dimension ->
  size !! d = Some 0 ->
  let result :=
    run (ParallelizeImageRegion sch self dimension index size UserFunction filter) in
  calls (trace result.2)
  = if m_NumberOfThreads self =? 1 then [RegionCall index size] else [].
Proof.
  intros Hindex Hsize Hzero. cbv zeta.
  rewrite ParallelizeImageRegion_runs.
  destruct (m_NumberOfThreads self =? 1).
  - unfold invoke, emit. cbv beta iota.
    rewrite report_end_calls. cbn [trace].
    rewrite calls_app, (opened_calls filter). reflexivity.
  - assert (empty (region_of dimension index size) = true) as Hempty.
    { rewrite (region_of_arrays dimension index size Hindex Hsize).
      apply empty_true. exists d. unfold GetImageDimension, GetSize. simpl.
      rewrite Hzero. split; [|reflexivity].
      apply lookup_lt_Some in Hzero. lia. }
    unfold parallel_for_auto. rewrite Hempty. unfold ret.
    rewrite report_end_calls. apply opened_calls.
Qed.

Lemma empty_region_dispatch_witness :
  calls (trace (run (ParallelizeImageRegion Samples.in_order
                       (Samples.threader 1 UserFunction) 2 [5; 5] [0; 4]
                       UserFunction (Some Samples.never_aborting))).2)
  = [RegionCall [5; 5] [0; 4]].
Proof.
  exact (empty_region_dispatch Samples.in_order (Samples.threader 1 UserFunction)
           2 [5; 5] [0; 4] (Some Samples.never_aborting) 0 eq_refl eq_refl eq_refl).
Defined.

(** C10 as it was stated fails for every thread count other than 1: the
    empty region is not handed to any task, and the work function is not
    called. *)
Lemma empty_region_dispatch_counterexample :
  run (ParallelizeImageRegion Samples.in_order (Samples.threader 4 UserFunction)
         2 [5; 5] [0; 4] UserFunction None)
  = (Returned tt, initial_world).
Proof. reflexivity. Qed.


(** * Further properties *)

(** ** More on the task loop *)

Section TaskLoopMore.

Context {R : Type}.
Variables (sch : Scheduler) (f : Functor) (filter : option ProcessObject).
Variables (call : R -> Event) (advance : Z -> R -> Z) (total : Z).
Hypothesis call_is_call : forall r, is_call (call r) = true.

Let body := polled_task f filter call advance total.

(** Whatever the outcome, the calls made are those of the first tasks, in
    order; all of them when the loop returns. *)
Lemma loop_prefix tasks k progress w out w' :
  run_tasks sch body k progress tasks w = (out, w') ->
  exists n,
    (n <= length tasks)%nat /\
    calls (trace w') = calls (trace w) ++ (call <$> take n tasks) /\
    (out = Returned tt -> n = length tasks).
Proof.
  revert k progress w. induction tasks as [|r tasks IH]; intros k progress w; simpl.
  - unfold ret. intros H. simplify_eq. exists 0%nat.
    rewrite app_nil_r. auto.
  - unfold bind at 1.
    destruct (body (on_calling_thread sch k) progress r w) as [[progress1|e] w1] eqn:E.
    + intros H. apply IH in H as (n & Hn & Hcalls & Hall).
      apply (task_returned f filter call advance total call_is_call) in E as [_ E].
      exists (S n). split_and!; [lia| |intros; f_equal; auto].
      rewrite Hcalls, E, <- app_assoc. reflexivity.
    + intros H. simplify_eq.
      apply (task_thrown f filter call advance total) in E as [E _].
      exists 0%nat. rewrite E, app_nil_r. split_and!; [lia|reflexivity|discriminate].
Qed.



Lemma task_polled_quiet fl oc progress r w :
  filter = Some fl -> f = UserFunction ->
  AbortGenerateData fl (polls w) = false ->
  exists progress' w',
    body oc progress r w = (Returned progress', w') /\
    polls w' = S (polls w) /\
    calls (trace w') = calls (trace w) ++ [call r].
Proof.
  intros Hfl Hf Hquiet.
  destruct (body oc progress r w) as [[progress'|e] w'] eqn:E.
  - exists progress', w'. split; [reflexivity|].
    split; [|apply (task_returned f filter call advance total call_is_call) in E as [_ E]; exact E].
    revert E. unfold body, polled_task, bind, poll, invoke, when, emit, throw, ret.
    rewrite Hfl, Hf. simpl. rewrite Hquiet.
    destruct oc; simpl; intros E; simplify_eq; reflexivity.
  - exfalso. revert E.
    unfold body, polled_task, bind, poll, invoke, when, emit, throw, ret.
    rewrite Hfl, Hf. simpl. rewrite Hquiet.
    destruct oc; simpl; discriminate.
Qed.

(** As long as the flag is not set at the polls of the tasks, every task
    polls once and calls once. *)
Lemma loop_quiet_through fl tasks k progress w :
  filter = Some fl -> f = UserFunction ->
  (forall j, (j < length tasks)%nat -> AbortGenerateData fl (polls w + j) = false) ->
  exists w',
    run_tasks sch body k progress tasks w = (Returned tt, w') /\
    polls w' = (polls w + length tasks)%nat /\
    calls (trace w') = calls (trace w) ++ (call <$> tasks).
Proof.
  intros Hfl Hf. revert k progress w.
  induction tasks as [|r tasks IH]; intros k progress w Hquiet; simpl.
  - exists w. rewrite app_nil_r, Nat.add_0_r. auto.
  - unfold bind at 1.
    destruct (task_polled_quiet fl (on_calling_thread sch k) progress r w Hfl Hf)
      as (progress1 & w1 & -> & Hpolls & Hcalls).
    { specialize (Hquiet 0%nat ltac:(simpl; lia)). rewrite Nat.add_0_r in Hquiet. exact Hquiet. }
    destruct (IH (S k) progress1 w1) as (w' & -> & Hpolls' & Hcalls').
    { intros j Hj. rewrite Hpolls.
      specialize (Hquiet (S j) ltac:(simpl; lia)).
      rewrite Nat.add_succ_r in Hquiet. exact Hquiet. }
    exists w'. split; [reflexivity|]. split; [simpl; lia|].
    rewrite Hcalls', Hcalls, <- app_assoc. reflexivity.
Qed.

(** When the flag is first set at the poll of the [n]-th task, the loop
    throws after the calls of the [n] tasks before it. *)
Lemma loop_abort_at fl n tasks k progress w :
  filter = Some fl -> f = UserFunction ->
  (n < length tasks)%nat ->
  (forall j, (j < n)%nat -> AbortGenerateData fl (polls w + j) = false) ->
  AbortGenerateData fl (polls w + n) = true ->
  exists w',
    run_tasks sch body k progress tasks w
    = (Thrown (ProcessAborted (aborted_description filter)), w') /\
    calls (trace w') = calls (trace w) ++ (call <$> take n tasks).
Proof.
  intros Hfl Hf. revert tasks k progress w.
  induction n as [|n IH]; intros [|r tasks] k progress w Hn Hquiet Habort;
    simpl in Hn; try lia.
  - rewrite Nat.add_0_r in Habort.
    eexists. split.
    + apply (loop_aborted sch f filter call advance total fl); assumption.
    + simpl. rewrite app_nil_r. reflexivity.
  - simpl. unfold bind at 1.
    destruct (task_polled_quiet fl (on_calling_thread sch k) progress r w Hfl Hf)
      as (progress1 & w1 & -> & Hpolls & Hcalls).
    { specialize (Hquiet 0%nat ltac:(lia)). rewrite Nat.add_0_r in Hquiet. exact Hquiet. }
    destruct (IH tasks (S k) progress1 w1) as (w' & -> & Hcalls').
    + lia.
    + intros j Hj. rewrite Hpolls. specialize (Hquiet (S j) ltac:(lia)).
      rewrite Nat.add_succ_r in Hquiet. exact Hquiet.
    + rewrite Hpolls. rewrite Nat.add_succ_r in Habort. exact Habort.
    + exists w'. split; [reflexivity|].
      rewrite Hcalls', Hcalls, <- app_assoc. reflexivity.
Qed.

End TaskLoopMore.

(** ** More on the flat dispatch *)

Section FlatDispatchMore.

Variable sch : Scheduler.
Variables (first last : Z).
Hypothesis first_lt_last : first < last.

Let range := {| my_begin := first; my_end := last; my_grainsize := 1 |}.
Let tasks := order sch _ (simple_partition (Z.to_nat (last - first)) range).

Lemma dispatch_tasks {St} (body : bool -> St -> blocked_range -> Exec St) shared w :
  parallel_for_simple sch range body shared w = run_tasks sch body 0 shared tasks w.
Proof.
  unfold parallel_for_simple, range_empty, range_size, range. simpl.
  destruct (Z.ltb_spec first last); [reflexivity|lia].
Qed.

Lemma tasks_units : Permutation (my_begin <$> tasks) (seqZ first (last - first)).
Proof. apply unit_tasks, first_lt_last. Qed.

Lemma tasks_length : length tasks = Z.to_nat (last - first).
Proof.
  rewrite <- (length_fmap my_begin), (Permutation_length tasks_units).
  apply length_seqZ.
Qed.

Lemma tasks_calls :
  Permutation ((fun r => ArrayCall (my_begin r)) <$> tasks)
    (ArrayCall <$> seqZ first (last - first)).
Proof. rewrite <- tasks_units, <- list_fmap_compose. reflexivity. Qed.

Lemma tasks_done n :
  let done := my_begin <$> take n tasks in
  (fun r => ArrayCall (my_begin r)) <$> take n tasks = ArrayCall <$> done /\
  NoDup done /\ forall i, elem_of i done -> first <= i < last.
Proof.
  cbv zeta. split; [rewrite <- list_fmap_compose; reflexivity|].
  assert (sublist (my_begin <$> take n tasks) (my_begin <$> tasks)) as Hsub.
  { apply fmap_sublist, sublist_take. }
  split.
  - eapply sublist_NoDup; [|exact Hsub]. rewrite tasks_units. apply NoDup_seqZ.
  - intros i Hi. apply (elem_of_sublist _ _ _ Hi) in Hsub.
    rewrite tasks_units in Hsub. apply elem_of_seqZ in Hsub. lia.
Qed.

End FlatDispatchMore.

Lemma progress_reports_app t1 t2 :
  progress_reports (t1 ++ t2) = progress_reports t1 ++ progress_reports t2.
Proof. apply omap_app. Qed.

Lemma progress_reports_calls {R} (call : R -> Event) (l : list R) :
  (forall r, is_call (call r) = true) -> progress_reports (call <$> l) = [].
Proof.
  intros Hcall. induction l as [|r l IH]; [reflexivity|].
  rewrite fmap_cons. unfold progress_reports in *. simpl.
  specialize (Hcall r). destruct (call r); simpl in *; [discriminate|exact IH..].
Qed.


(** Where the successor of [firstIndex] is computed without wrapping. *)
Lemma successor_exact z :
  is_SizeValueType z -> z + 1 < SizeValueType_modulus ->
  to_SizeValueType (z + 1) = z + 1.
Proof. intros [H0 _] H1. apply to_SizeValueType_id. split; lia. Qed.

(** The three ways [ParallelizeArray] can go on a range in order. *)
Lemma array_paths firstIndex lastIndexPlus1 :
  is_SizeValueType firstIndex -> is_SizeValueType lastIndexPlus1 ->
  firstIndex <= lastIndexPlus1 ->
  (firstIndex < lastIndexPlus1 /\
   (to_SizeValueType (firstIndex + 1) <? lastIndexPlus1) = true) \/
  (firstIndex + 1 = lastIndexPlus1 /\
   (to_SizeValueType (firstIndex + 1) <? lastIndexPlus1) = false /\
   (to_SizeValueType (firstIndex + 1) =? lastIndexPlus1) = true) \/
  (firstIndex = lastIndexPlus1 /\
   forall {St} sch (body : bool -> St -> blocked_range -> Exec St) shared aFunc w,
     (if to_SizeValueType (firstIndex + 1) <? lastIndexPlus1 then
        parallel_for_simple sch
          {| my_begin := firstIndex; my_end := lastIndexPlus1; my_grainsize := 1 |}
          body shared
      else if to_SizeValueType (firstIndex + 1) =? lastIndexPlus1 then
        invoke aFunc (ArrayCall firstIndex)
      else ret tt) w = (Returned tt, w)).
Proof.
  intros Hfirst Hlast Hle.
  destruct (decide (firstIndex = lastIndexPlus1)) as [<-|Hne].
  - right. right. split; [reflexivity|]. intros St sch body shared aFunc w.
    rewrite successor_differs.
    destruct (_ <? _); [apply parallel_array_empty; lia | reflexivity].
  - unfold is_SizeValueType in *.
    rewrite successor_exact by (unfold is_SizeValueType; lia).
    destruct (Z.ltb_spec (firstIndex + 1) lastIndexPlus1).
    + left. split; [lia|reflexivity].
    + right. left. split; [lia|]. split; [reflexivity|]. apply Z.eqb_eq. lia.
Qed.

Lemma closing_calls filter (branch : Outcome unit * World) :
  calls
    (trace
       (match branch with
        | (Returned _, w) => report_end filter w
        | (Thrown e, w) => (Thrown e, w)
        end).2)
  = calls (trace branch.2).
Proof. destruct branch as [[[]|e] w]; simpl; [apply report_end_calls|reflexivity]. Qed.

(** ** Further properties of the entry points *)

(** X1. Whatever the outcome of [ParallelizeArray] (returned, aborted at
    any point, or stopped by an empty function) and whatever the scheduler
    does, the calls it has made are calls of the work function on indices
    of the range, and no index was given twice. *)
Theorem array_calls_never_stray (sch : Scheduler) (firstIndex lastIndexPlus1 : Z)
    (aFunc : Functor) (filter : option ProcessObject) :
  is_SizeValueType firstIndex -> is_SizeValueType lastIndexPlus1 ->
  firstIndex <= lastIndexPlus1 ->
  let result := run (ParallelizeArray sch firstIndex lastIndexPlus1 aFunc filter) in
  exists done : list Z,
    calls (trace result.2) = ArrayCall <$> done /\
    NoDup done /\
    forall i, elem_of i done -> firstIndex <= i < lastIndexPlus1.
Proof.
  intros Hfirst Hlast Hle. cbv zeta.
  rewrite ParallelizeArray_runs, closing_calls.
  destruct (array_paths firstIndex lastIndexPlus1 Hfirst Hlast Hle)
    as [[Hlt ->]|[(Hone & -> & ->)|[Hnone Hbranch]]].
  - destruct (parallel_for_simple _ _ _ _ _) as [out w'] eqn:E.
    rewrite (dispatch_tasks sch _ _ Hlt), array_task_polled in E.
    apply loop_prefix in E as (n & _ & Hcalls & _); [|reflexivity].
    simpl. pose proof (opened_calls filter) as Hopened.
    rewrite Hopened in Hcalls. simpl in Hcalls.
    destruct (tasks_done sch firstIndex lastIndexPlus1 Hlt n) as (Hdone & Hdup & Hin).
    rewrite Hdone in Hcalls.
    eexists. split; [exact Hcalls|]. split; assumption.
  - pose proof (opened_calls filter) as Hopened.
    destruct aFunc; unfold invoke, emit, throw; cbv beta; cbn [snd trace].
    + exists []. split; [exact Hopened|].
      split; [constructor|]. intros i Hi. inversion Hi.
    + exists [firstIndex]. split; [rewrite calls_app, Hopened; reflexivity|].
      split; [apply NoDup_singleton|].
      intros i Hi. apply list_elem_of_singleton in Hi. lia.
  - rewrite Hbranch. cbn [snd]. exists []. split; [apply opened_calls|].
    split; [constructor|]. intros i Hi. inversion Hi.
Qed.

Lemma array_calls_never_stray_witness :
  exists done : list Z,
    calls (trace (run (ParallelizeArray Samples.backwards 3 7 UserFunction
                         (Some (aborting_from 2)))).2)
    = ArrayCall <$> done /\
    NoDup done /\
    forall i, elem_of i done -> 3 <= i < 7.
Proof.
  apply (array_calls_never_stray Samples.backwards 3 7 UserFunction
           (Some (aborting_from 2))).
  - apply small_is_size. lia.
  - apply small_is_size. lia.
  - lia.
Defined.

(** X2. [ParallelizeArray] over a range of at least two elements, with a
    filter whose abort flag is first found set at its poll number [k]
    (counting from 0): the call throws [ProcessAborted]. If [k] is below
    the number of elements, exactly [k] calls of the work function were
    made. If [k] is the number of elements, the flag was first seen by the
    closing check: every index was processed, and the call throws all the
    same. *)
Theorem array_abort_at_poll (sch : Scheduler) (firstIndex lastIndexPlus1 : Z)
    (f : ProcessObject) (k : nat) :
  is_SizeValueType firstIndex -> is_SizeValueType lastIndexPlus1 ->
  firstIndex + 1 < lastIndexPlus1 ->
  (k <= Z.to_nat (lastIndexPlus1 - firstIndex))%nat ->
  quiet_before f k -> AbortGenerateData f k = true ->
  let result :=
    run (ParallelizeArray sch firstIndex lastIndexPlus1 UserFunction (Some f)) in
  result.1 = Thrown (ProcessAborted (aborted_description (Some f))) /\
  length (calls (trace result.2)) = k /\
  (k = Z.to_nat (lastIndexPlus1 - firstIndex) ->
   Permutation (calls (trace result.2))
     (ArrayCall <$> seqZ firstIndex (lastIndexPlus1 - firstIndex))).
Proof.
  intros Hfirst Hlast Hmany Hk Hquiet Habort. cbv zeta.
  assert (firstIndex < lastIndexPlus1) as Hlt by lia.
  rewrite ParallelizeArray_runs.
  rewrite successor_exact by (unfold is_SizeValueType in *; lia).
  destruct (Z.ltb_spec (firstIndex + 1) lastIndexPlus1); [|lia].
  rewrite (dispatch_tasks sch _ _ Hlt), array_task_polled.
  pose proof (tasks_length sch firstIndex lastIndexPlus1 Hlt) as Hlen.
  destruct (decide (k = Z.to_nat (lastIndexPlus1 - firstIndex))) as [Hall|Hearly].
  - edestruct (loop_quiet_through sch UserFunction (Some f)
                 (fun r => ArrayCall (my_begin r))) as (w' & -> & Hpolls & Hcalls);
      [intros; reflexivity | reflexivity | reflexivity | |].
    { intros j Hj. apply Hquiet. simpl. lia. }
    pose proof (report_end_calls (Some f) w') as Hclosed.
    pose proof (report_end_runs (Some f) w') as Hruns.
    destruct (report_end (Some f) w') as [out2 w2].
    cbn [fst snd] in *.
    rewrite Hpolls, Hlen, <- Hall in Hruns. cbn [polls opened] in Hruns.
    rewrite Nat.add_0_l, Habort in Hruns. injection Hruns as -> _.
    pose proof (opened_calls (Some f)) as Hopened.
    rewrite Hclosed, Hcalls, Hopened. cbn [app].
    split; [reflexivity|]. split.
    + rewrite length_fmap. lia.
    + intros _. apply tasks_calls. exact Hlt.
  - edestruct (loop_abort_at sch UserFunction (Some f)
                 (fun r => ArrayCall (my_begin r))) as (w' & -> & Hcalls);
      [intros; reflexivity | reflexivity | reflexivity | | | |].
    { rewrite Hlen. instantiate (1 := k). lia. }
    { intros j Hj. apply Hquiet. exact Hj. }
    { exact Habort. }
    cbn [fst snd]. pose proof (opened_calls (Some f)) as Hopened.
    rewrite Hcalls, Hopened. cbn [app].
    split; [reflexivity|]. split; [|intros; contradiction].
    rewrite length_fmap, length_take. lia.
Qed.

Lemma aborting_from_quiet k : quiet_before (aborting_from k) k.
Proof. intros j Hj. simpl. apply Nat.leb_gt. exact Hj. Qed.

Lemma aborting_from_set k : AbortGenerateData (aborting_from k) k = true.
Proof. simpl. apply Nat.leb_refl. Qed.

Lemma array_abort_at_poll_witness :
  let result :=
    run (ParallelizeArray Samples.backwards 3 7 UserFunction (Some (aborting_from 2))) in
  result.1 = Thrown (ProcessAborted (aborted_description (Some (aborting_from 2)))) /\
  length (calls (trace result.2)) = 2%nat.
Proof.
  destruct (array_abort_at_poll Samples.backwards 3 7 (aborting_from 2) 2)
    as (Hout & Hlen & _).
  - apply small_is_size. lia.
  - apply small_is_size. lia.
  - lia.
  - vm_compute. lia.
  - apply aborting_from_quiet.
  - apply aborting_from_set.
  - split; [exact Hout | exact Hlen].
Defined.

(** ** Progress *)

Section Progress.

Variables (sch : Scheduler) (f : ProcessObject) (count : Z).
Hypothesis f_quiet : forall n, AbortGenerateData f n = false.

(** What the tasks started from number [k] on report. *)
Let reported (k len : nat) : list (Z * Z) :=
  omap (fun j => if on_calling_thread sch j then Some (Z.of_nat j + 1, count) else None)
    (seq k len).

Lemma array_task_reports k r w :
  Z.of_nat k + 1 < SizeValueType_modulus ->
  exists w',
    array_task UserFunction (Some f) count (on_calling_thread sch k) (Z.of_nat k) r w
    = (Returned (Z.of_nat (S k)), w') /\
    progress_reports (trace w') = progress_reports (trace w) ++ reported k 1.
Proof.
  intros Hfit.
  unfold array_task, bind, poll, invoke, when, emit, throw, ret. simpl.
  rewrite f_quiet. cbv beta iota. simpl is_filter. cbv iota.
  rewrite (to_SizeValueType_id (Z.of_nat k + 1)) by (unfold is_SizeValueType; lia).
  replace (Z.of_nat k + 1) with (Z.of_nat (S k)) by lia.
  unfold reported.
  destruct (on_calling_thread sch k) eqn:Hoc; eexists; (split; [reflexivity|]);
    cbn [trace]; rewrite !progress_reports_app; simpl; rewrite Hoc; simpl;
    rewrite ?app_nil_r.
  - replace (Z.of_nat k + 1) with (Z.of_nat (S k)) by lia. reflexivity.
  - reflexivity.
Qed.

Lemma array_loop_reports tasks k w :
  Z.of_nat (k + length tasks) < SizeValueType_modulus ->
  exists w',
    run_tasks sch (array_task UserFunction (Some f) count) k (Z.of_nat k) tasks w
    = (Returned tt, w') /\
    progress_reports (trace w')
    = progress_reports (trace w) ++ reported k (length tasks).
Proof.
  revert k w. induction tasks as [|r tasks IH]; intros k w Hfit.
  - exists w. split; [reflexivity|]. unfold reported. simpl. rewrite app_nil_r. reflexivity.
  - cbn [run_tasks]. unfold bind at 1.
    destruct (array_task_reports k r w) as (w1 & -> & H1).
    { simpl in Hfit. lia. }
    destruct (IH (S k) w1) as (w' & -> & H').
    { simpl in Hfit. replace (S k + length tasks)%nat with (k + S (length tasks))%nat by lia.
      exact Hfit. }
    exists w'. split; [reflexivity|].
    rewrite H', H1, <- app_assoc. f_equal.
    unfold reported. cbn [length seq]. rewrite <- omap_app. reflexivity.
Qed.

End Progress.

(** X3. The progress a complete [ParallelizeArray] reports over a range of
    at least two elements, with a filter that never aborts: 0 first; then,
    from each task that ran on the calling thread, the number of tasks
    finished so far over [count], the range's length as an [unsigned];
    1 last. So the fractions the tasks report have increasing numerators,
    and tasks on other threads report nothing. When the length is below
    2^32, [count] is the length. *)
Theorem array_progress_reports (sch : Scheduler) (firstIndex lastIndexPlus1 : Z)
    (f : ProcessObject) :
  is_SizeValueType firstIndex -> is_SizeValueType lastIndexPlus1 ->
  firstIndex + 1 < lastIndexPlus1 ->
  (forall n, AbortGenerateData f n = false) ->
  let result :=
    run (ParallelizeArray sch firstIndex lastIndexPlus1 UserFunction (Some f)) in
  let count := to_unsigned (to_SizeValueType (lastIndexPlus1 - firstIndex)) in
  result.1 = Returned tt /\
  progress_reports (trace result.2)
  = (0, 1)
    :: omap (fun j =>
               if on_calling_thread sch j then Some (Z.of_nat j + 1, count) else None)
         (seq 0 (Z.to_nat (lastIndexPlus1 - firstIndex)))
    ++ [(1, 1)] /\
  (lastIndexPlus1 - firstIndex < 2 ^ 32 -> count = lastIndexPlus1 - firstIndex).
Proof.
  intros Hfirst Hlast Hmany Hquiet. cbv zeta.
  assert (firstIndex < lastIndexPlus1) as Hlt by lia.
  split; [|split].
  3: { intros Hsmall. unfold is_SizeValueType, SizeValueType_modulus in *.
       rewrite to_SizeValueType_id by (unfold is_SizeValueType, SizeValueType_modulus; lia).
       unfold to_unsigned. apply Z.mod_small. lia. }
  all: rewrite ParallelizeArray_runs.
  all: rewrite successor_exact by (unfold is_SizeValueType in *; lia).
  all: destruct (Z.ltb_spec (firstIndex + 1) lastIndexPlus1); [|lia].
  all: rewrite (dispatch_tasks sch _ _ Hlt).
  all: pose proof (tasks_length sch firstIndex lastIndexPlus1 Hlt) as Hlen.
  all: destruct (array_loop_reports sch f
                   (to_unsigned (to_SizeValueType (lastIndexPlus1 - firstIndex)))
                   Hquiet
                   (order sch _
                      (simple_partition (Z.to_nat (lastIndexPlus1 - firstIndex))
                         {| my_begin := firstIndex; my_end := lastIndexPlus1;
                            my_grainsize := 1 |}))
                   0%nat (opened (Some f)))
         as (w' & Hrun & Hreports);
    [ rewrite Hlen; unfold is_SizeValueType in *; lia | ].
  all: change (Z.of_nat 0) with 0 in Hrun; rewrite Hrun, report_end_runs.
  - cbn [fst]. rewrite Hquiet. reflexivity.
  - cbn [snd trace]. rewrite progress_reports_app, Hreports, Hlen.
    reflexivity.
Qed.

Lemma array_progress_reports_witness :
  progress_reports
    (trace (run (ParallelizeArray Samples.in_order 3 7 UserFunction
                   (Some Samples.never_aborting))).2)
  = [(0, 1); (1, 4); (2, 4); (3, 4); (4, 4); (1, 1)].
Proof.
  destruct (array_progress_reports Samples.in_order 3 7 Samples.never_aborting)
    as (_ & Hreports & _).
  - apply small_is_size. lia.
  - apply small_is_size. lia.
  - lia.
  - intros n. reflexivity.
  - exact Hreports.
Defined.

(** ** More on the region dispatch *)

Section RegionDispatchMore.

Variable sch : Scheduler.

Lemma auto_partition_partition plan (range : TBBImageRegionSplitter) :
  Region.wf range -> in_index_range range -> valid_plan plan ->
  exists leaves,
    auto_partition plan range = Returned leaves /\
    forall x, holders leaves x = if IsInside range x then 1%nat else 0%nat.
Proof.
  revert range. induction plan as [|p l IHl r IHr]; intros range Hwf Hrange Hplan; simpl.
  - exists [range]. split; [reflexivity|]. intros x. apply holders_single.
  - destruct Hplan as (Hp & Hl & Hr).
    destruct (is_divisible range) eqn:Hdiv.
    2: { exists [range]. split; [reflexivity|]. intros x. apply holders_single. }
    destruct (split_step range p Hwf Hrange Hp Hdiv)
      as (halves & -> & [Hwf1 Hwf2] & [Hr1 Hr2] & _ & Hcover & Hdisj & _).
    destruct (IHl (constructed halves) Hwf1 Hr1 Hl) as (l1 & -> & H1).
    destruct (IHr (argument halves) Hwf2 Hr2 Hr) as (l2 & -> & H2).
    exists (l1 ++ l2). split; [reflexivity|]. intros x.
    rewrite holders_app, H1, H2, (Hcover x). specialize (Hdisj x).
    destruct (IsInside (constructed halves) x), (IsInside (argument halves) x);
      simpl in *; congruence.
Qed.

Lemma covering_regions (l : list ImageIORegion) x :
  covering ((fun r => RegionCall (m_Index r) (m_Size r)) <$> l) x = holders l x.
Proof.
  unfold covering, holders. induction l as [|r l IH]; [reflexivity|].
  rewrite fmap_cons, !filter_cons. simpl covers. unfold IsInside at 1 3.
  destruct (decide (inside (m_Index r) (m_Size r) x = true)); simpl; rewrite IH;
    reflexivity.
Qed.

Lemma holders_permutation l l' x : Permutation l l' -> holders l x = holders l' x.
Proof. intros Hp. unfold holders. rewrite Hp. reflexivity. Qed.

Lemma holders_take n l x : (holders (take n l) x <= holders l x)%nat.
Proof.
  rewrite <- (take_drop n l) at 2. rewrite holders_app. lia.
Qed.

Lemma inside_zero (index size x : list Z) d :
  size !! d = Some 0 -> inside index size x = false.
Proof.
  revert size x d.
  induction index as [|i index IH]; intros [|s size] [|v x] [|d] Hs;
    simpl in *; try discriminate; try reflexivity.
  - simplify_eq. destruct (Z.leb_spec i v), (Z.ltb_spec v (i + 0)); simpl;
      try reflexivity; lia.
  - rewrite (IH size x d Hs). apply andb_false_r.
Qed.

Lemma empty_inside (range : TBBImageRegionSplitter) x :
  length (m_Size range) = m_ImageDimension range ->
  empty range = true -> IsInside range x = false.
Proof.
  intros Hlen Hempty. apply empty_true in Hempty as (d & Hd & Hzero).
  unfold GetImageDimension in Hd. unfold GetSize in Hzero.
  destruct (lookup_lt_is_Some_2 (m_Size range) d ltac:(lia)) as [s Hs].
  rewrite Hs in Hzero. simpl in Hzero. subst s.
  apply (inside_zero _ _ _ d Hs).
Qed.

(** What [parallel_for] is given to run on the region of the caller's
    arrays: tasks on leaves that hold each point of the region once. *)
Lemma region_tasks dimension index size :
  arrays_wf dimension index size ->
  exists tasks : list TBBImageRegionSplitter,
    (forall x, holders tasks x = if inside index size x then 1%nat else 0%nat) /\
    forall St (body : bool -> St -> TBBImageRegionSplitter -> Exec St) shared w,
      parallel_for_auto sch (region_of dimension index size) body shared w
      = run_tasks sch body 0 shared tasks w.
Proof.
  intros (Hindex & Hsize & Hitype & Hstype & Hrange).
  rewrite (region_of_arrays dimension index size Hindex Hsize).
  set (region := {| m_ImageDimension := dimension; m_Index := index; m_Size := size |}).
  assert (Region.wf region) as Hwf by (unfold Region.wf; auto).
  unfold parallel_for_auto.
  destruct (empty region) eqn:Hempty.
  - exists []. split; [|reflexivity]. intros x.
    pose proof (empty_inside region x Hsize Hempty) as Hout.
    unfold IsInside in Hout. simpl in Hout. rewrite Hout. reflexivity.
  - destruct (auto_partition_partition (plan sch) region Hwf Hrange (plan_valid sch))
      as (leaves & -> & Hleaves).
    exists (order sch _ leaves). split; [|reflexivity]. intros x.
    rewrite (holders_permutation _ leaves x) by apply order_permutation.
    apply Hleaves.
Qed.

End RegionDispatchMore.

Lemma covering_single index size x :
  covering [RegionCall index size] x = if inside index size x then 1%nat else 0%nat.
Proof.
  unfold covering. rewrite filter_cons, filter_nil. simpl covers.
  destruct (inside index size x); case_decide; simpl; congruence.
Qed.

(** X4. [ParallelizeImageRegion] on a region of the index and size types
    that lies within the index type, for every thread count and whatever
    the scheduler does: when no abort is signalled the call returns, and a
    call that returns has handed every point of the region to the work
    function exactly once, and no point outside it. *)
Theorem region_points_exactly_once (sch : Scheduler) (self : TBBMultiThreader)
    (dimension : nat) (index size : list Z) (filter : option ProcessObject) :
  arrays_wf dimension index size ->
  let result :=
    run (ParallelizeImageRegion sch self dimension index size UserFunction filter) in
  (never_aborts filter -> result.1 = Returned tt) /\
  (result.1 = Returned tt ->
   forall x,
     covering (calls (trace result.2)) x
     = if inside index size x then 1%nat else 0%nat).
Proof.
  intros Hwf. cbv zeta. rewrite ParallelizeImageRegion_runs.
  pose proof (opened_calls filter) as Hopened.
  destruct (m_NumberOfThreads self =? 1).
  - unfold invoke, emit. cbv beta iota. split.
    + intros Hquiet. apply quiet_report_end, Hquiet.
    + intros _ x. rewrite report_end_calls. cbn [trace].
      rewrite calls_app, Hopened. apply covering_single.
  - destruct (region_tasks sch dimension index size Hwf) as (tasks & Hcover & ->).
    rewrite region_task_polled. split.
    + intros Hquiet.
      match goal with
      | |- context [@run_tasks ?R ?St ?s ?b ?k ?p ?t ?w] =>
          assert (exists w', @run_tasks R St s b k p t w = (Returned tt, w')) as Hrun
            by (eapply loop_quiet; first [exact Hquiet | intros; reflexivity])
      end.
      destruct Hrun as [w' Hrun]. rewrite Hrun.
      apply quiet_report_end, Hquiet.
    + destruct (run_tasks _ _ _ _ _ _) as [[[]|e] w'] eqn:E; [|discriminate].
      intros _ x. rewrite report_end_calls.
      apply loop_returned in E; [|intros; reflexivity].
      rewrite E, Hopened. cbn [app]. rewrite covering_regions. apply Hcover.
Qed.

Lemma region_points_exactly_once_witness :
  let result :=
    run (ParallelizeImageRegion Samples.in_order (Samples.threader 4 UserFunction)
           2 [0; 10] [4; 4] UserFunction (Some Samples.never_aborting)) in
  result.1 = Returned tt /\
  covering (calls (trace result.2)) [3; 12] = 1%nat /\
  covering (calls (trace result.2)) [4; 12] = 0%nat.
Proof.
  destruct (region_points_exactly_once Samples.in_order
              (Samples.threader 4 UserFunction) 2 [0; 10] [4; 4]
              (Some Samples.never_aborting)) as [Hreturns Honce].
  - unfold arrays_wf. split_and!; try reflexivity.
    + repeat (apply Forall_cons_2; [apply small_is_index; lia|]). apply Forall_nil_2.
    + repeat (apply Forall_cons_2; [apply small_is_size; lia|]). apply Forall_nil_2.
    + intros [|[|d]] i s Hi Hs; simpl in *; simplify_eq;
        unfold IndexValueType_max; lia.
  - assert (never_aborts (Some Samples.never_aborting)) as Hquiet
      by (intros n; reflexivity).
    split_and!.
    + exact (Hreturns Hquiet).
    + exact (Honce (Hreturns Hquiet) [3; 12]).
    + exact (Honce (Hreturns Hquiet) [4; 12]).
Defined.

(** X5. Whatever the outcome of [ParallelizeImageRegion] (returned,
    aborted at any point, or stopped by an empty function), no point was
    handed to the work function twice, and no point outside the region
    was handed to it at all. *)
Theorem region_calls_never_stray (sch : Scheduler) (self : TBBMultiThreader)
    (dimension : nat) (index size : list Z) (funcP : Functor)
    (filter : option ProcessObject) (x : list Z) :
  arrays_wf dimension index size ->
  let result :=
    run (ParallelizeImageRegion sch self dimension index size funcP filter) in
  (covering (calls (trace result.2)) x
   <= if inside index size x then 1 else 0)%nat.
Proof.
  intros Hwf. cbv zeta. rewrite ParallelizeImageRegion_runs, closing_calls.
  pose proof (opened_calls filter) as Hopened.
  destruct (m_NumberOfThreads self =? 1).
  - destruct funcP; unfold invoke, emit, throw; cbv beta; cbn [snd trace].
    + rewrite Hopened. unfold covering. simpl. lia.
    + rewrite calls_app, Hopened. apply Nat.eq_le_incl, covering_single.
  - destruct (region_tasks sch dimension index size Hwf) as (tasks & Hcover & ->).
    rewrite region_task_polled.
    destruct (run_tasks _ _ _ _ _ _) as [out w'] eqn:E.
    apply loop_prefix in E as (n & _ & Hcalls & _); [|intros; reflexivity].
    cbn [snd]. rewrite Hcalls, Hopened. cbn [app].
    rewrite covering_regions, <- (Hcover x). apply holders_take.
Qed.

Lemma plane_arrays_wf i0 s0 i1 s1 :
  0 <= i0 < 1000 -> 0 <= s0 < 1000 -> 0 <= i1 < 1000 -> 0 <= s1 < 1000 ->
  arrays_wf 2 [i0; i1] [s0; s1].
Proof.
  intros H0 H1 H2 H3. unfold arrays_wf. split_and!; try reflexivity.
  - repeat (apply Forall_cons_2; [apply small_is_index; lia|]). apply Forall_nil_2.
  - repeat (apply Forall_cons_2; [apply small_is_size; lia|]). apply Forall_nil_2.
  - intros [|[|d]] i s Hi Hs; simpl in *; simplify_eq;
      unfold IndexValueType_max; lia.
Qed.

Lemma region_calls_never_stray_witness :
  let result :=
    run (ParallelizeImageRegion Samples.backwards (Samples.threader 4 UserFunction)
           2 [0; 10] [4; 4] UserFunction (Some (aborting_from 1))) in
  let point := [3; 12] in
  (covering (calls (trace result.2)) point <= 1)%nat.
Proof.
  apply (region_calls_never_stray Samples.backwards (Samples.threader 4 UserFunction)
           2 [0; 10] [4; 4] UserFunction (Some (aborting_from 1)) [3; 12]).
  apply plane_arrays_wf; lia.
Defined.

(** ** Runs without a filter, and what can be thrown *)








(** ** The progress counter *)

Section ProgressBound.

Context {R : Type}.
Variables (sch : Scheduler) (f : Functor) (filter : option ProcessObject).
Variables (call : R -> Event) (weight : R -> Z) (total : Z).
Hypothesis call_is_call : forall r, is_call (call r) = true.

Let advance := fun (progress : Z) (r : R) => to_SizeValueType (progress + weight r).
Let body := polled_task f filter call advance total.

Lemma call_reports_nothing r : progress_reports [call r] = [].
Proof. apply (progress_reports_calls call [r] call_is_call). Qed.

(** One task reports nothing or the counter it has advanced; it leaves the
    counter as it was only where it reported nothing. *)
Lemma task_reports oc progress r w out w' :
  body oc progress r w = (out, w') ->
  (progress_reports (trace w') = progress_reports (trace w) /\
   (out = Returned progress \/ out = Returned (advance progress r) \/
    exists e, out = Thrown e)) \/
  (progress_reports (trace w')
   = progress_reports (trace w) ++ [(advance progress r, total)] /\
   out = Returned (advance progress r)).
Proof.
  unfold body, polled_task, bind, poll, invoke, when, emit, throw, ret.
  destruct filter as [fl|]; simpl.
  - destruct (AbortGenerateData fl (polls w)).
    { intros H. simplify_eq. left. split; [reflexivity|]. right. right. eauto. }
    destruct f.
    { intros H. simplify_eq. left. split; [reflexivity|]. right. right. eauto. }
    destruct oc; simpl; intros H; simplify_eq; simpl.
    + right. rewrite !progress_reports_app, call_reports_nothing, app_nil_r.
      split; reflexivity.
    + left. rewrite progress_reports_app, call_reports_nothing, app_nil_r. auto.
  - destruct f; intros H; simplify_eq; simpl.
    + left. split; [reflexivity|]. right. right. eauto.
    + left. rewrite progress_reports_app, call_reports_nothing, app_nil_r. auto.
Qed.

(** As long as the weights of the tasks add up to at most [total], and
    [total] is a [SizeValueType], the counter never wraps: the reports of
    the loop, whatever its outcome, are values between the starting
    counter and [total], over [total], in ascending order. *)
Lemma loop_reports_bounded tasks k progress w out w' :
  0 <= progress ->
  Forall (fun r => 0 <= weight r) tasks ->
  progress + foldr Z.add 0 (weight <$> tasks) <= total ->
  total < SizeValueType_modulus ->
  run_tasks sch body k progress tasks w = (out, w') ->
  exists l,
    progress_reports (trace w') = progress_reports (trace w) ++ l /\
    Forall (fun nd => progress <= nd.1 <= total /\ nd.2 = total) l /\
    StronglySorted Z.le (l.*1) /\
    (tasks = [] -> l = []).
Proof.
  intros Hp Hweights Hsum Htotal. revert k progress w Hp Hsum.
  induction Hweights as [|r tasks Hr Hrest IH]; intros k progress w Hp Hsum; simpl.
  - unfold ret. intros H. simplify_eq. exists []. rewrite app_nil_r.
    split_and!; [reflexivity|constructor|constructor|reflexivity].
  - csimpl in Hsum.
    assert (0 <= foldr Z.add 0 (weight <$> tasks)) as Hsum'.
    { clear -Hrest. induction Hrest; csimpl; lia. }
    assert (advance progress r = progress + weight r) as Hadv.
    { unfold advance. apply to_SizeValueType_id. unfold is_SizeValueType. lia. }
    unfold bind at 1.
    destruct (body (on_calling_thread sch k) progress r w) as [[progress1|e] w1] eqn:E.
    + intros H.
      apply task_reports in E as [[E Hout]|[E Hout]].
      * assert (progress1 = progress \/ progress1 = progress + weight r) as Hp1.
        { destruct Hout as [?|[?|[? ?]]]; simplify_eq; auto. }
        apply IH in H as (l & Hl & Hbound & Hsorted & _); [| lia | lia].
        exists l. rewrite Hl, E. split_and!; [reflexivity| |exact Hsorted|discriminate].
        eapply Forall_impl; [exact Hbound|]. simpl. intros nd. lia.
      * simplify_eq. rewrite Hadv in *.
        apply IH in H as (l & Hl & Hbound & Hsorted & _); [| lia | lia].
        exists ((progress + weight r, total) :: l).
        rewrite Hl, E, <- app_assoc.
        split_and!; [reflexivity| | |discriminate].
        -- apply Forall_cons_2; [simpl; lia|].
           eapply Forall_impl; [exact Hbound|]. simpl. intros nd. lia.
        -- simpl. constructor; [exact Hsorted|].
           apply Forall_fmap. eapply Forall_impl; [exact Hbound|].
           simpl. intros nd. lia.
    + intros H. simplify_eq.
      apply task_reports in E as [[E _]|[_ ?]]; [|discriminate].
      exists []. rewrite E, app_nil_r.
      split_and!; [reflexivity|constructor|constructor|discriminate].
Qed.

End ProgressBound.

(** Reports over a positive [total], in ascending order, between the
    opening [0 / 1] and the closing [1 / 1], are proper fractions in
    ascending order. *)
Lemma reports_in_order (total : Z) (l tail : list (Z * Z)) :
  (l <> [] -> 0 < total) ->
  Forall (fun nd => 0 <= nd.1 <= total /\ nd.2 = total) l ->
  StronglySorted Z.le (l.*1) ->
  tail = [] \/ tail = [(1, 1)] ->
  Forall proper_fraction (l ++ tail) /\
  StronglySorted fraction_le (l ++ tail) /\
  Forall (fraction_le (0, 1)) (l ++ tail).
Proof.
  intros Hpos Hbound Hsorted Htail.
  assert (Forall proper_fraction tail /\ StronglySorted fraction_le tail /\
          Forall (fraction_le (0, 1)) tail) as (Ht1 & Ht2 & Ht3).
  { destruct Htail as [->| ->]; split_and!; repeat constructor;
      unfold proper_fraction, fraction_le; simpl; lia. }
  induction Hbound as [|[n d] l [Hn Hd] Hbound IH]; [auto|].
  simpl in *. subst d. specialize (Hpos ltac:(discriminate)).
  apply StronglySorted_inv in Hsorted as [Hsorted Hall].
  destruct IH as (IH1 & IH2 & IH3); [intros _; exact Hpos | exact Hsorted |].
  split_and!.
  - apply Forall_cons_2; [unfold proper_fraction; simpl; lia | exact IH1].
  - constructor; [exact IH2|].
    apply Forall_app. split.
    + rewrite Forall_fmap in Hall. apply Forall_forall. intros [n' d'] Hin.
      pose proof (proj1 (Forall_forall _ _) Hall (n', d') Hin) as Hle.
      pose proof (proj1 (Forall_forall _ _) Hbound (n', d') Hin) as [_ Hd'].
      unfold fraction_le. simpl in *. subst d'. nia.
    + destruct Htail as [->| ->]; repeat constructor.
      unfold fraction_le. simpl. lia.
  - apply Forall_cons_2; [unfold fraction_le; simpl; lia | exact IH3].
Qed.

Lemma pixels_nonnegative (r : ImageIORegion) :
  Region.wf r -> 0 <= GetNumberOfPixels r.
Proof.
  intros (_ & _ & _ & Hsize). unfold GetNumberOfPixels.
  induction Hsize as [|s l [Hs _] _ IH]; simpl; [lia|nia].
Qed.

Lemma pixels_positive (r : ImageIORegion) :
  Region.wf r -> empty r = false -> 1 <= GetNumberOfPixels r.
Proof.
  intros (_ & Hlen & _ & Hsize) Hempty.
  assert (Forall (fun s => 1 <= s) (m_Size r)) as Hpos.
  { apply Forall_lookup_2. intros d s Hs.
    pose proof (Forall_lookup_1 _ _ _ _ Hsize Hs) as [Hge _].
    destruct (decide (s = 0)) as [->|]; [|lia].
    exfalso. apply not_true_iff_false in Hempty. apply Hempty, empty_true.
    exists d. split; [apply lookup_lt_Some in Hs; unfold GetImageDimension; lia|].
    apply (GetSize_lookup _ _ _ Hs). }
  unfold GetNumberOfPixels. clear -Hpos.
  induction Hpos as [|s l Hs _ IH]; simpl; [lia|nia].
Qed.

Lemma pixel_sum_permutation (l l' : list ImageIORegion) :
  Permutation l l' ->
  foldr Z.add 0 (GetNumberOfPixels <$> l) = foldr Z.add 0 (GetNumberOfPixels <$> l').
Proof. induction 1; csimpl; lia. Qed.

Lemma auto_partition_pixels plan (range : TBBImageRegionSplitter) :
  Region.wf range -> in_index_range range -> valid_plan plan ->
  exists leaves,
    auto_partition plan range = Returned leaves /\
    Forall Region.wf leaves /\
    foldr Z.add 0 (GetNumberOfPixels <$> leaves) = GetNumberOfPixels range.
Proof.
  revert range. induction plan as [|p l IHl r IHr]; intros range Hwf Hrange Hplan; simpl.
  - exists [range].
    split_and!; [reflexivity|apply Forall_cons_2; [exact Hwf|apply Forall_nil_2]|].
    csimpl. lia.
  - destruct Hplan as (Hp & Hl & Hr).
    destruct (is_divisible range) eqn:Hdiv.
    2: { exists [range].
         split_and!; [reflexivity|apply Forall_cons_2; [exact Hwf|apply Forall_nil_2]|].
         csimpl. lia. }
    destruct (split_step range p Hwf Hrange Hp Hdiv)
      as (halves & -> & [Hwf1 Hwf2] & [Hr1 Hr2] & _ & _ & _ & Hpixels & _).
    destruct (IHl (constructed halves) Hwf1 Hr1 Hl) as (l1 & -> & Hw1 & H1).
    destruct (IHr (argument halves) Hwf2 Hr2 Hr) as (l2 & -> & Hw2 & H2).
    exists (l1 ++ l2). split_and!; [reflexivity|apply Forall_app; auto|].
    rewrite fmap_app, foldr_app.
    assert (forall (a : list Z) z, foldr Z.add z a = foldr Z.add 0 a + z) as Hfold.
    { induction a; intros z; simpl; [lia|]. rewrite IHa. lia. }
    rewrite Hfold, H1, H2. lia.
Qed.

Lemma opened_reports filter :
  progress_reports (trace (opened filter)) = if is_filter filter then [(0, 1)] else [].
Proof. destruct filter; reflexivity. Qed.

Lemma closing_reports filter (branch : Outcome unit * World) :
  exists tail,
    progress_reports
      (trace
         (match branch with
          | (Returned _, w) => report_end filter w
          | (Thrown e, w) => (Thrown e, w)
          end).2)
    = progress_reports (trace branch.2) ++ tail /\
    (tail = [] \/ tail = [(1, 1)]).
Proof.
  destruct branch as [[[]|e] w]; simpl.
  - rewrite report_end_runs. destruct filter as [f|]; simpl.
    + exists [(1, 1)]. rewrite progress_reports_app. auto.
    + exists []. rewrite app_nil_r. auto.
  - exists []. rewrite app_nil_r. auto.
Qed.

(** The reports of a whole run: the opening one, those of the tasks, the
    closing one. *)
Lemma run_reports_in_order filter (total : Z) (reports l tail : list (Z * Z)) :
  reports = (if is_filter filter then [(0, 1)] else []) ++ l ++ tail ->
  (l <> [] -> 0 < total) ->
  Forall (fun nd => 0 <= nd.1 <= total /\ nd.2 = total) l ->
  StronglySorted Z.le (l.*1) ->
  tail = [] \/ tail = [(1, 1)] ->
  Forall proper_fraction reports /\ StronglySorted fraction_le reports.
Proof.
  intros -> Hpos Hbound Hsorted Htail.
  destruct (reports_in_order total l tail Hpos Hbound Hsorted Htail)
    as (Hproper & Hordered & Hfirst).
  destruct (is_filter filter); simpl; [|auto].
  split.
  - apply Forall_cons_2; [unfold proper_fraction; simpl; lia | exact Hproper].
  - constructor; assumption.
Qed.

Lemma sum_of_ones {A} (l : list A) :
  foldr Z.add 0 ((fun _ => 1) <$> l) = Z.of_nat (length l).
Proof. induction l; csimpl; lia. Qed.

(** X8. The progress that [ParallelizeImageRegion] reports, for a region
    of the index and size types within the index type whose pixel count
    fits [SizeValueType], whatever the function, the filter, the scheduler
    and the outcome: every report is a fraction in [[0, 1]] with a
    positive denominator (the pixel counts of the sub-regions never add
    up to more than the total), and the reports never go backwards. *)
Theorem region_progress_in_order (sch : Scheduler) (self : TBBMultiThreader)
    (dimension : nat) (index size : list Z) (funcP : Functor)
    (filter : option ProcessObject) :
  arrays_wf dimension index size ->
  foldr Z.mul 1 size < SizeValueType_modulus ->
  let result :=
    run (ParallelizeImageRegion sch self dimension index size funcP filter) in
  let reports := progress_reports (trace result.2) in
  Forall proper_fraction reports /\ StronglySorted fraction_le reports.
Proof.
  intros Hwf Hfits. cbv zeta. rewrite ParallelizeImageRegion_runs.
  match goal with
  | |- context [(if ?c then ?a else ?b) (opened filter)] =>
      set (branch := (if c then a else b) (opened filter))
  end.
  destruct (closing_reports filter branch) as (tail & Hclose & Htail).
  rewrite Hclose. clear Hclose.
  set (total := GetNumberOfPixels (region_of dimension index size)).
  assert (exists l,
    progress_reports (trace branch.2)
    = (if is_filter filter then [(0, 1)] else []) ++ l /\
    (l <> [] -> 0 < total) /\
    Forall (fun nd => 0 <= nd.1 <= total /\ nd.2 = total) l /\
    StronglySorted Z.le (l.*1)) as (l & Hl & Hpos & Hbound & Hsorted).
  { subst branch. destruct (m_NumberOfThreads self =? 1).
    - exists []. rewrite app_nil_r.
      split_and!; [|congruence|constructor|constructor].
      destruct funcP; unfold invoke, emit, throw; cbv beta; cbn [snd trace].
      + apply opened_reports.
      + rewrite progress_reports_app, opened_reports. apply app_nil_r.
    - destruct Hwf as (Hindex & Hsize & Hitype & Hstype & Hrange).
      subst total.
      rewrite (region_of_arrays dimension index size Hindex Hsize).
      set (region :=
             {| m_ImageDimension := dimension; m_Index := index; m_Size := size |}).
      assert (Region.wf region) as Hregion by (unfold Region.wf; auto).
      unfold parallel_for_auto.
      destruct (empty region) eqn:Hempty.
      { exists []. rewrite app_nil_r.
        split_and!; [apply opened_reports|congruence|constructor|constructor]. }
      destruct (auto_partition_pixels (plan sch) region Hregion Hrange (plan_valid sch))
        as (leaves & -> & Hleaves & Hsum).
      rewrite region_task_polled.
      destruct (run_tasks _ _ _ _ _ _) as [out w'] eqn:E.
      apply (loop_reports_bounded sch funcP filter _ GetNumberOfPixels
               (GetNumberOfPixels region)) in E
        as (l & Hl & Hbound & Hsorted & _).
      + exists l. cbn [snd]. rewrite Hl, opened_reports.
        split_and!; [reflexivity| |exact Hbound|exact Hsorted].
        intros _. pose proof (pixels_positive region Hregion Hempty). lia.
      + intros; reflexivity.
      + lia.
      + rewrite (order_permutation sch).
        eapply Forall_impl; [exact Hleaves|]. apply pixels_nonnegative.
      + rewrite (pixel_sum_permutation _ leaves) by apply order_permutation.
        lia.
      + exact Hfits. }
  eapply (run_reports_in_order filter total _ l tail); try eassumption.
  rewrite Hl, <- app_assoc. reflexivity.
Qed.

Lemma region_progress_in_order_witness :
  let result :=
    run (ParallelizeImageRegion Samples.in_order (Samples.threader 4 UserFunction)
           2 [0; 10] [4; 4] UserFunction (Some Samples.never_aborting)) in
  let reports := progress_reports (trace result.2) in
  reports = [(0, 1); (8, 16); (16, 16); (1, 1)] /\
  Forall proper_fraction reports /\ StronglySorted fraction_le reports.
Proof.
  split; [vm_compute; reflexivity|].
  apply (region_progress_in_order Samples.in_order (Samples.threader 4 UserFunction)
           2 [0; 10] [4; 4] UserFunction (Some Samples.never_aborting)).
  - apply plane_arrays_wf; lia.
  - vm_compute. reflexivity.
Defined.

(** X9. The progress that [ParallelizeArray] reports over a range of
    fewer than 2^32 indices (the count is converted to [unsigned int]),
    whatever the function, the filter, the scheduler and the outcome:
    every report is a fraction in [[0, 1]] with a positive denominator,
    and the reports never go backwards. *)
Theorem array_progress_in_order (sch : Scheduler)
    (firstIndex lastIndexPlus1 : Z) (aFunc : Functor)
    (filter : option ProcessObject) :
  is_SizeValueType firstIndex -> is_SizeValueType lastIndexPlus1 ->
  firstIndex <= lastIndexPlus1 -> lastIndexPlus1 - firstIndex < 2 ^ 32 ->
  let result :=
    run (ParallelizeArray sch firstIndex lastIndexPlus1 aFunc filter) in
  let reports := progress_reports (trace result.2) in
  Forall proper_fraction reports /\ StronglySorted fraction_le reports.
Proof.
  intros Hfirst Hlast Hle Hsmall. cbv zeta. rewrite ParallelizeArray_runs.
  match goal with
  | |- context [(if ?c then ?a else ?b) (opened filter)] =>
      set (branch := (if c then a else b) (opened filter))
  end.
  destruct (closing_reports filter branch) as (tail & Hclose & Htail).
  rewrite Hclose. clear Hclose.
  set (total := lastIndexPlus1 - firstIndex).
  assert (to_unsigned (to_SizeValueType (lastIndexPlus1 - firstIndex)) = total)
    as Hcount.
  { unfold is_SizeValueType in *.
    rewrite to_SizeValueType_id by (unfold is_SizeValueType; lia).
    unfold to_unsigned. apply Z.mod_small. lia. }
  assert (exists l,
    progress_reports (trace branch.2)
    = (if is_filter filter then [(0, 1)] else []) ++ l /\
    (l <> [] -> 0 < total) /\
    Forall (fun nd => 0 <= nd.1 <= total /\ nd.2 = total) l /\
    StronglySorted Z.le (l.*1)) as (l & Hl & Hpos & Hbound & Hsorted).
  { subst branch.
    destruct (array_paths firstIndex lastIndexPlus1 Hfirst Hlast Hle)
      as [[Hlt ->]|[(Hone & -> & ->)|[Hsame Hnothing]]].
    - rewrite (dispatch_tasks sch firstIndex lastIndexPlus1 Hlt), Hcount.
      rewrite array_task_polled.
      destruct (run_tasks _ _ _ _ _ _) as [out w'] eqn:E.
      apply (loop_reports_bounded sch aFunc filter _ (fun _ => 1) total) in E
        as (l & Hl & Hbound & Hsorted & _).
      + exists l. cbn [snd]. rewrite Hl, opened_reports.
        split_and!; [reflexivity| |exact Hbound|exact Hsorted].
        intros _. unfold total. lia.
      + intros; reflexivity.
      + lia.
      + apply Forall_forall. intros; lia.
      + rewrite sum_of_ones, (tasks_length sch firstIndex lastIndexPlus1 Hlt).
        unfold total. lia.
      + unfold total, is_SizeValueType, SizeValueType_modulus in *. lia.
    - exists []. rewrite app_nil_r.
      split_and!; [|congruence|constructor|constructor].
      destruct aFunc; unfold invoke, emit, throw; cbv beta; cbn [snd trace].
      + apply opened_reports.
      + rewrite progress_reports_app, opened_reports. apply app_nil_r.
    - exists []. rewrite app_nil_r, Hnothing.
      split_and!; [apply opened_reports|congruence|constructor|constructor]. }
  eapply (run_reports_in_order filter total _ l tail); try eassumption.
  rewrite Hl, <- app_assoc. reflexivity.
Qed.

Lemma array_progress_in_order_witness :
  let result :=
    run (ParallelizeArray Samples.backwards 3 7 UserFunction
           (Some (aborting_from 2))) in
  let reports := progress_reports (trace result.2) in
  Forall proper_fraction reports /\ StronglySorted fraction_le reports.
Proof.
  apply (array_progress_in_order Samples.backwards 3 7 UserFunction
           (Some (aborting_from 2)));
    first [apply small_is_size; lia | lia].
Defined.

(** ** The threader from construction to execution *)

(** X10. A threader as the constructor leaves it has at least one thread,
    whatever the global default, and no method: [SingleMethodExecute]
    throws and does nothing else. Once [SetSingleMethod] has given it a
    method and its data, [SingleMethodExecute] returns after calling the
    method once for each thread index below the thread count, each call
    with that count and that data; it polls no abort flag and reports no
    progress. *)
Theorem threader_lifecycle (sch : Scheduler) (GlobalDefaultNumberOfThreads data : Z) :
  GlobalDefaultNumberOfThreads <= INT_MAX ->
  let fresh := Build GlobalDefaultNumberOfThreads in
  let ready := SetSingleMethod fresh UserFunction data in
  let count := Z.max 1 GlobalDefaultNumberOfThreads in
  let result := run (SingleMethodExecute sch ready) in
  m_NumberOfThreads fresh = count /\ 1 <= count /\
  run (SingleMethodExecute sch fresh) = (Thrown NoSingleMethodSet, initial_world) /\
  result.1 = Returned tt /\
  polls result.2 = 0%nat /\
  calls (trace result.2) = trace result.2 /\
  Permutation (trace result.2)
    ((fun i => SingleMethodCall i count data) <$> seqZ 0 count).
Proof.
  intros Hmax. cbv zeta.
  split; [reflexivity|]. split; [lia|]. split; [reflexivity|].
  assert (1 <= Z.max 1 GlobalDefaultNumberOfThreads <= INT_MAX) as HN
    by (unfold INT_MAX in *; lia).
  rewrite (SingleMethodExecute_runs sch
             (SetSingleMethod (Build GlobalDefaultNumberOfThreads) UserFunction data)
             eq_refl HN).
  cbn [fst snd trace polls SetSingleMethod Build m_NumberOfThreads m_SingleData].
  split; [reflexivity|]. split; [reflexivity|]. split.
  - apply calls_only_calls, Forall_fmap, Forall_forall. intros; reflexivity.
  - pose proof (unit_tasks sch 0 (Z.max 1 GlobalDefaultNumberOfThreads) ltac:(lia))
      as Hunits.
    rewrite Z.sub_0_r in Hunits.
    rewrite <- Hunits, <- list_fmap_compose. reflexivity.
Qed.

Lemma threader_lifecycle_witness :
  m_NumberOfThreads (Build 0) = 1 /\
  run (SingleMethodExecute Samples.backwards (Build 0))
  = (Thrown NoSingleMethodSet, initial_world) /\
  Permutation
    (trace (run (SingleMethodExecute Samples.backwards
                   (SetSingleMethod (Build 0) UserFunction 42))).2)
    [SingleMethodCall 0 1 42].
Proof.
  destruct (threader_lifecycle Samples.backwards 0 42) as (H1 & _ & H2 & _ & _ & _ & H3).
  - unfold INT_MAX. lia.
  - split; [exact H1|]. split; [exact H2|exact H3].
Defined.

(** ** More on one split *)

Section SplitMore.

Variables (region : TBBImageRegionSplitter) (p : proportional_split).
Hypothesis region_wf : Region.wf region.
Hypothesis p_valid : valid_ratio p.

(** A split that returns has split the chosen dimension at a cut inside
    it. *)
Lemma returned_split halves :
  proportional_split_constructor region p = Returned halves ->
  exists d,
    chosen_dimension region d /\
    1 <= split_point (GetSize region d) p <= GetSize region d - 1 /\
    m_Size region !! d = Some (GetSize region d) /\
    m_Size (constructed halves) = <[d := split_point (GetSize region d) p]> (m_Size region) /\
    m_Size (argument halves)
    = <[d := GetSize region d - split_point (GetSize region d) p]> (m_Size region) /\
    GetImageDimension (constructed halves) = GetImageDimension region /\
    GetImageDimension (argument halves) = GetImageDimension region.
Proof.
  intros Hsplit.
  destruct (constructor_cases region p) as [[Hthrown _]|(d & Hd & _)].
  { rewrite Hthrown in Hsplit. discriminate. }
  rewrite (constructor_returns region p d region_wf p_valid Hd) in Hsplit.
  injection Hsplit as <-.
  exists d. split; [exact Hd|]. split; [apply cut_bounds; assumption|].
  split; [apply chosen_size; assumption|].
  split_and!; reflexivity.
Qed.

Lemma empty_insert (r : TBBImageRegionSplitter) d s v sizes :
  m_Size r !! d = Some s -> s <> 0 -> v <> 0 ->
  empty {| m_ImageDimension := m_ImageDimension r; m_Index := sizes;
           m_Size := <[d := v]> (m_Size r) |}
  = empty r.
Proof.
  intros Hs Hnz Hv. apply eq_iff_eq_true. rewrite !empty_true.
  unfold GetImageDimension, GetSize. simpl.
  split; intros (d' & Hd' & Hzero); exists d'; (split; [exact Hd'|]);
    destruct (decide (d' = d)) as [->|Hne].
  - rewrite list_lookup_insert_eq in Hzero by (apply lookup_lt_Some in Hs; exact Hs).
    simpl in Hzero. congruence.
  - rewrite list_lookup_insert_ne in Hzero by congruence. exact Hzero.
  - rewrite Hs in Hzero. simpl in Hzero. congruence.
  - rewrite list_lookup_insert_ne by congruence. exact Hzero.
Qed.

End SplitMore.

(** X11. A split that returns, of a well-formed region with any ratio
    whose components are at least 1 and whose sum fits the size type,
    conserves the number of pixels between the two halves, makes neither
    half empty unless the region was, and leaves each half with fewer
    pixels along the split dimension; none of this depends on where the
    region lies in the index type. *)
Theorem split_conserves_pixels (region : TBBImageRegionSplitter)
    (p : proportional_split) (halves : SplitResult) :
  Region.wf region -> valid_ratio p ->
  proportional_split_constructor region p = Returned halves ->
  GetNumberOfPixels (constructed halves) + GetNumberOfPixels (argument halves)
  = GetNumberOfPixels region /\
  empty (constructed halves) = empty region /\
  empty (argument halves) = empty region /\
  foldr Z.add 0 (m_Size (constructed halves)) < foldr Z.add 0 (m_Size region) /\
  foldr Z.add 0 (m_Size (argument halves)) < foldr Z.add 0 (m_Size region).
Proof.
  intros Hwf Hp Hsplit.
  destruct (returned_split region p Hwf Hp halves Hsplit)
    as (d & Hd & Hcut & Hs & Hsize1 & Hsize2 & Hdim1 & Hdim2).
  pose proof (chosen_size_bounds region d Hwf Hd) as Hbounds.
  split_and!.
  - unfold GetNumberOfPixels. rewrite Hsize1, Hsize2.
    apply (product_insert _ d (GetSize region d)); [exact Hs|lia].
  - destruct (constructed halves) as [dim idx sz]. simpl in *. subst dim sz.
    apply (empty_insert region d (GetSize region d)); [exact Hs|lia|lia].
  - destruct (argument halves) as [dim idx sz]. simpl in *. subst dim sz.
    apply (empty_insert region d (GetSize region d)); [exact Hs|lia|lia].
  - rewrite Hsize1, (sum_insert _ d (GetSize region d)) by exact Hs. lia.
  - rewrite Hsize2, (sum_insert _ d (GetSize region d)) by exact Hs. lia.
Qed.

Lemma split_conserves_pixels_witness :
  let region := Samples.plane (2 ^ 63 - 2) 4 0 3 in
  let halves :=
    {| constructed := Samples.plane (2 ^ 63 - 2) 4 0 2;
       argument := Samples.plane (2 ^ 63 - 2) 4 2 1 |} in
  GetNumberOfPixels (constructed halves) + GetNumberOfPixels (argument halves) = 12 /\
  empty (constructed halves) = false /\ empty (argument halves) = false.
Proof.
  cbv zeta.
  destruct (split_conserves_pixels (Samples.plane (2 ^ 63 - 2) 4 0 3)
              Samples.one_to_three
              {| constructed := Samples.plane (2 ^ 63 - 2) 4 0 2;
                 argument := Samples.plane (2 ^ 63 - 2) 4 2 1 |})
    as (Hpixels & Hempty1 & Hempty2 & _).
  - apply plane_wf.
    + unfold is_IndexValueType, IndexValueType_min, IndexValueType_max. lia.
    + apply small_is_size. lia.
    + apply small_is_index. lia.
    + apply small_is_size. lia.
  - apply one_to_three_valid.
  - vm_compute. reflexivity.
  - split; [exact Hpixels|]. split; [exact Hempty1|exact Hempty2].
Defined.

(** X12. The plain splitting constructor (the one taking [tbb::split])
    halves the highest dimension with more than one element: the new
    splitter gets the lower half, rounded down, and the splitter passed in
    keeps the rest, so the two sizes differ by at most one. *)
Theorem plain_split_halves (region : TBBImageRegionSplitter) (halves : SplitResult) :
  Region.wf region ->
  split_constructor region = Returned halves ->
  exists d,
    chosen_dimension region d /\
    GetSize (constructed halves) d = GetSize region d / 2 /\
    GetSize (argument halves) d = GetSize region d - GetSize region d / 2 /\
    0 <= GetSize (argument halves) d - GetSize (constructed halves) d <= 1.
Proof.
  intros Hwf Hsplit. unfold split_constructor in Hsplit.
  destruct (returned_split region _ Hwf even_split_valid halves Hsplit)
    as (d & Hd & _ & Hs & Hsize1 & Hsize2 & _).
  pose proof (chosen_size_bounds region d Hwf Hd) as Hbounds.
  assert (split_point (GetSize region d) Samples.even_split
          = GetSize region d / 2) as Hcut.
  { rewrite (split_point_exact _ even_split_valid) by (simpl; lia).
    unfold described_cut, clamp. simpl.
    rewrite Z.mul_1_r. change (1 + 1) with 2.
    pose proof (Z.div_mod (GetSize region d) 2 ltac:(lia)).
    pose proof (Z.mod_pos_bound (GetSize region d) 2 ltac:(lia)). lia. }
  rewrite Hcut in *.
  assert (GetSize (constructed halves) d = GetSize region d / 2) as H1.
  { unfold GetSize at 1. rewrite Hsize1, list_lookup_insert_eq; [reflexivity|].
    apply lookup_lt_Some in Hs. exact Hs. }
  assert (GetSize (argument halves) d = GetSize region d - GetSize region d / 2) as H2.
  { unfold GetSize at 1. rewrite Hsize2, list_lookup_insert_eq; [reflexivity|].
    apply lookup_lt_Some in Hs. exact Hs. }
  exists d. split; [exact Hd|]. split; [exact H1|]. split; [exact H2|].
  rewrite H1, H2.
  pose proof (Z.div_mod (GetSize region d) 2 ltac:(lia)).
  pose proof (Z.mod_pos_bound (GetSize region d) 2 ltac:(lia)). lia.
Qed.

Lemma plain_split_halves_witness :
  exists d,
    chosen_dimension (Samples.plane 0 7 0 1) d /\
    GetSize (Samples.plane 0 3 0 1) d = GetSize (Samples.plane 0 7 0 1) d / 2 /\
    GetSize (Samples.plane 3 4 0 1) d
    = GetSize (Samples.plane 0 7 0 1) d - GetSize (Samples.plane 0 7 0 1) d / 2 /\
    0 <= GetSize (Samples.plane 3 4 0 1) d - GetSize (Samples.plane 0 3 0 1) d <= 1.
Proof.
  apply (plain_split_halves (Samples.plane 0 7 0 1)
           {| constructed := Samples.plane 0 3 0 1;
              argument := Samples.plane 3 4 0 1 |}).
  - apply plane_wf; first [apply small_is_index; lia | apply small_is_size; lia].
  - vm_compute. reflexivity.
Defined.

(** ** The caller's arrays *)

Lemma fill_leading (dimension : nat) (index size : list Z) (l : list nat) start :
  Forall (fun d => (d < dimension)%nat) l ->
  foldl
    (fun region d =>
       SetSize (SetIndex region d (default 0 (index !! d))) d
         (default 0 (size !! d))) start l
  = foldl
      (fun region d =>
         SetSize (SetIndex region d (default 0 (take dimension index !! d))) d
           (default 0 (take dimension size !! d))) start l.
Proof.
  intros Hl. revert start. induction Hl as [|d l Hd _ IH]; intros start; simpl.
  - reflexivity.
  - rewrite !lookup_take_lt by exact Hd. apply IH.
Qed.

(** X13. On its dispatched path (a thread count other than 1)
    [ParallelizeImageRegion] reads the first [dimension] entries of the
    caller's index and size arrays and nothing after them: the region it
    builds has exactly these entries, and the whole call goes as it does
    on the arrays cut to that length. *)
Theorem region_reads_leading_entries (sch : Scheduler) (self : TBBMultiThreader)
    (dimension : nat) (index size : list Z) (funcP : Functor)
    (filter : option ProcessObject) :
  (dimension <= length index)%nat -> (dimension <= length size)%nat ->
  m_NumberOfThreads self <> 1 ->
  region_of dimension index size
  = {| m_ImageDimension := dimension;
       m_Index := take dimension index;
       m_Size := take dimension size |} /\
  run (ParallelizeImageRegion sch self dimension index size funcP filter)
  = run (ParallelizeImageRegion sch self dimension
           (take dimension index) (take dimension size) funcP filter).
Proof.
  intros Hindex Hsize HN.
  assert (region_of dimension index size
          = region_of dimension (take dimension index) (take dimension size)) as Hsame.
  { unfold region_of. apply fill_leading.
    apply Forall_forall. intros d Hd. apply elem_of_seq in Hd. lia. }
  split.
  - rewrite Hsame. apply region_of_arrays; rewrite length_take; lia.
  - rewrite !ParallelizeImageRegion_runs.
    apply Z.eqb_neq in HN. rewrite HN, Hsame. reflexivity.
Qed.

Lemma region_reads_leading_entries_witness :
  region_of 2 [0; 10; 77] [4; 4; 99]
  = {| m_ImageDimension := 2; m_Index := [0; 10]; m_Size := [4; 4] |} /\
  run (ParallelizeImageRegion Samples.in_order (Samples.threader 4 UserFunction)
         2 [0; 10; 77] [4; 4; 99] UserFunction None)
  = run (ParallelizeImageRegion Samples.in_order (Samples.threader 4 UserFunction)
           2 [0; 10] [4; 4] UserFunction None).
Proof.
  apply (region_reads_leading_entries Samples.in_order
           (Samples.threader 4 UserFunction) 2 [0; 10; 77] [4; 4; 99]
           UserFunction None).
  - simpl. lia.
  - simpl. lia.
  - simpl. lia.
Defined.
